(** * Imagify: the image-quality analysis and encoding-search core of [app.js]

    A shallow embedding of the numeric core of the [Imagify] class:
    the resizer ([calculateDisplaySize], [calculateCompressionSize]), the
    dead-zone search ([findDeadZoneThreshold]), the compression entry point
    ([compressImage]), the metric engine ([calculatePSNR], [calculateSSIM])
    and the heat-map generator ([updateHeatMap], [getHeatMapColor]).

    [app.js] holds two revisions of the class.  They agree, statement for
    statement, on the resizer, the dead-zone search, the metric engine, the
    heat map, the size formatter, the upload check and the download; they
    differ in the guards of [compressImage], [updateDeadZoneHighlight] and
    [resetToOriginal], for which the first revision is followed.

    Conventions of the embedding.
    - JavaScript integers (sizes, dimensions, byte values, loop counters,
      quality percentages) are [Z] or [nat]; every other JavaScript number is
      a real number [R], so arithmetic is exact (no binary64 rounding).
      Where the rounding decides a property, the function is read a second
      time over binary64 numbers, in the module [Binary64].
    - A typed pixel buffer ([ImageData.data], a [Uint8ClampedArray]) is a flat
      [list Z] of bytes; [d[i]] is [byteAt d i].  The buffers the program
      reads always have length [4 * width * height], and the theorems assume
      so, hence no read is out of range.
    - Wherever a theorem depends on the value of a quotient, its divisor is
      nonzero, by a guard of the code or by a hypothesis on the image size.
    - The browser's JPEG encoder ([canvas.toBlob]) is a parameter of the
      development: a function from the canvas contents and the quality
      percentage to the outcome of the asynchronous call. *)

From Stdlib Require Import String ZArith List Lia Reals Lra Psatz Bool.
Import ListNotations.

Open Scope Z_scope.

(** ** JavaScript numeric primitives *)

(** [Math.floor]. *)
Definition Math_floor (x : R) : Z := Int_part x.

(** [Math.round]: the nearest integer, halves rounded towards +infinity. *)
Definition Math_round (x : R) : Z := Int_part (x + / 2).

(** [Math.log10]. *)
Definition Math_log10 (x : R) : R := Rlog 10 x.

(** [Math.min(a, b, c)]. *)
Definition Math_min3 (a b c : R) : R := Rmin (Rmin a b) c.

(** Storing a number into a [Uint8ClampedArray]: clamp to [0, 255] and round
    to the nearest integer, ties to the even one. *)
Definition ToUint8Clamp (x : R) : Z :=
  let c := Rmin (Rmax x 0) 255 in
  let f := Int_part c in
  if Rlt_dec (IZR f + / 2) c then f + 1
  else if Rlt_dec c (IZR f + / 2) then f
  else if Z.even f then f else f + 1.

(** [d[i]] on a pixel buffer. *)
Definition byteAt (d : list Z) (i : nat) : Z := nth i d 0.

(** The values [i = 0, 4, 8, ...] taken by [for (let i = 0; i < n; i += 4)]. *)
Definition pixelOffsets (n : nat) : list nat :=
  map (fun k => (4 * k)%nat) (seq 0 ((n + 3) / 4)).

(** ** Application state *)

(** The loaded [Image] element: its intrinsic size and its decoded RGBA
    content, which the core reaches only through [drawImage]. *)
Record Image := { naturalWidth : Z; naturalHeight : Z; bitmap : list Z }.

(** The selected [File]: its MIME type and its byte size. *)
Record File := { type : string; size : Z }.

(** The fields of [Imagify] and the two DOM inputs the core reads.
    [maxWidthInput] is the result of [parseInt] on the text of the
    [maxWidth] field, [None] standing for [NaN]. *)
Record Imagify := {
  originalImage : option Image;
  originalFile : option File;
  originalSize : Z;
  currentQuality : Z;
  maxWidthInput : option Z;
  maxHeightInput : option Z
}.

Record Size := { width : Z; height : Z }.

(** ** Resizer *)

(** The products [originalWidth * ratio] and [originalHeight * ratio] are
    exact here.  In binary64 they can fall just below a half-integer that the
    exact product hits, and [Math.round] then gives the lower neighbour; the
    properties below hold for either neighbour. *)
Definition calculateDisplaySize (originalWidth originalHeight maxWidth maxHeight : Z) : Size :=
  if (originalWidth =? 0) || (originalHeight =? 0) then {| width := 0; height := 0 |}
  else
    let ratio := Math_min3 (IZR maxWidth / IZR originalWidth)
                           (IZR maxHeight / IZR originalHeight) 1%R in
    {| width := Z.max 1 (Math_round (IZR originalWidth * ratio));
       height := Z.max 1 (Math_round (IZR originalHeight * ratio)) |}.

(** [parseInt(text) || fallback]: [NaN] and [0] are falsy. *)
Definition parsedOr (parsed : option Z) (fallback : Z) : Z :=
  match parsed with
  | Some z => if z =? 0 then fallback else z
  | None => fallback
  end.

(** For a natural size of 0 the quotients of the code are [NaN]; the
    properties below are about images of positive size. *)
Definition calculateCompressionSize (app : Imagify) : Size :=
  match originalImage app with
  | None => {| width := 0; height := 0 |}
  | Some img =>
      let maxWidth := parsedOr (maxWidthInput app) (naturalWidth img) in
      let maxHeight := parsedOr (maxHeightInput app) (naturalHeight img) in
      let ratio := Math_min3 (IZR maxWidth / IZR (naturalWidth img))
                             (IZR maxHeight / IZR (naturalHeight img)) 1%R in
      {| width := Z.max 1 (Math_round (IZR (naturalWidth img) * ratio));
         height := Z.max 1 (Math_round (IZR (naturalHeight img) * ratio)) |}
  end.

(** ** Canvas and codec *)

(** The drawing calls the core issues on a 2D context, in program order. *)
Inductive CanvasOp :=
| FillRectWhite (x y w h : Z)      (* fillStyle = '#FFFFFF'; fillRect(x, y, w, h) *)
| DrawImage (img : Image) (x y w h : Z).

Record Canvas := { canvasWidth : Z; canvasHeight : Z; drawn : list CanvasOp }.

Definition createCanvas (w h : Z) : Canvas :=
  {| canvasWidth := w; canvasHeight := h; drawn := [] |}.

Definition draw (op : CanvasOp) (c : Canvas) : Canvas :=
  {| canvasWidth := canvasWidth c; canvasHeight := canvasHeight c;
     drawn := drawn c ++ [op] |}.

(** Outcome of [toBlob(cb, 'image/jpeg', quality / 100)]: a blob of some byte
    size, a [null] blob, or an exception. *)
Inductive BlobResult :=
| Blob (blobSize : Z)
| NullBlob
| Threw.

(** One call of the encoder: the canvas it was given and the quality
    percentage. *)
Record EncodeCall := { encodedCanvas : Canvas; encodedQuality : Z }.

(** The canvas both [compressImage] and [findDeadZoneThreshold] prepare:
    white background when the file is a PNG, then the image scaled to the
    target size. *)
Definition isPng (f : File) : bool := String.eqb (type f) "image/png".

(** The specification's "origin format supports alpha", on MIME types.  The
    file picker admits every [image/*] type and names JPG, PNG and WebP; PNG,
    WebP and GIF can carry transparency, JPEG cannot. *)
Definition supportsAlpha (mime : string) : bool :=
  existsb (String.eqb mime) ["image/png"; "image/webp"; "image/gif"]%string.

(** An encoder call whose canvas was painted white before the image was
    drawn on it. *)
Definition flattenedFirst (call : EncodeCall) : Prop :=
  exists img w h,
    drawn (encodedCanvas call) = [FillRectWhite 0 0 w h; DrawImage img 0 0 w h].

(** [parseInt] gave nothing usable ([NaN] or [0]) or at least [n]. *)
Definition unconstrained (parsed : option Z) (n : Z) : bool :=
  match parsed with
  | Some z => (z =? 0) || (n <=? z)
  | None => true
  end.

Definition prepareCanvas (flatten : bool) (img : Image) (w h : Z) : Canvas :=
  let c0 := createCanvas w h in
  let c1 := if flatten then draw (FillRectWhite 0 0 w h) c0 else c0 in
  draw (DrawImage img 0 0 w h) c1.

Section Codec.

Variable toBlob : Canvas -> Z -> BlobResult.

(** *** Dead-zone search *)

Definition testQualities : list Z :=
  [99; 98; 97; 96; 95; 94; 93; 92; 91; 90; 88; 85; 80; 75; 70].

(** [blob && blob.size > this.originalSize]. *)
Definition exceeds (originalSize : Z) (r : BlobResult) : bool :=
  match r with
  | Blob blobSize => originalSize <? blobSize
  | NullBlob => false
  | Threw => false
  end.

(** The [for (const quality of testQualities)] loop.  It returns the value
    of [thresholdQuality] at loop exit and the encoder calls made. *)
Fixpoint scanQualities (tempCanvas : Canvas) (originalSize : Z)
         (qualities : list Z) (thresholdQuality : Z) : Z * list EncodeCall :=
  match qualities with
  | [] => (thresholdQuality, [])
  | quality :: rest =>
      let call := {| encodedCanvas := tempCanvas; encodedQuality := quality |} in
      match toBlob tempCanvas quality with
      | Blob blobSize =>
          if originalSize <? blobSize then
            let (t, calls) := scanQualities tempCanvas originalSize rest quality in
            (t, call :: calls)
          else (quality + 1, [call])
      | NullBlob => (quality + 1, [call])
      | Threw => (quality + 1, [call])
      end
  end.

Record DeadZone := { threshold : Z; probes : list EncodeCall }.

Definition findDeadZoneThreshold (app : Imagify) : DeadZone :=
  match originalImage app, originalFile app with
  | Some img, Some file =>
      if originalSize app =? 0 then {| threshold := 101; probes := [] |}
      else
        let sz := calculateCompressionSize app in
        if (width sz =? 0) || (height sz =? 0) then {| threshold := 101; probes := [] |}
        else
          let tempCanvas := prepareCanvas (isPng file) img (width sz) (height sz) in
          let (thresholdQuality, calls) :=
            scanQualities tempCanvas (originalSize app) testQualities 101 in
          {| threshold := Z.max 1 (Z.min thresholdQuality 101); probes := calls |}
  | _, _ => {| threshold := 101; probes := [] |}
  end.

(** *** Compression *)

Inductive Compression :=
| NothingToDo                       (* no image loaded: early return *)
| CompressionError                  (* zero target size: caught, reported *)
| UsedOriginal (f : option File)    (* processFinalBlob(this.originalFile) *)
| Encoded (call : EncodeCall) (result : BlobResult).

Definition compressImage (app : Imagify) : Compression :=
  match originalImage app with
  | None => NothingToDo
  | Some img =>
      let sz := calculateCompressionSize app in
      if (width sz =? 0) || (height sz =? 0) then CompressionError
      else
        let isResized :=
          negb (width sz =? naturalWidth img) || negb (height sz =? naturalHeight img) in
        if (currentQuality app =? 100) && negb isResized then UsedOriginal (originalFile app)
        else
          let flatten := match originalFile app with
                         | Some f => isPng f
                         | None => false
                         end in
          let tempCanvas := prepareCanvas flatten img (width sz) (height sz) in
          Encoded {| encodedCanvas := tempCanvas; encodedQuality := currentQuality app |}
                  (toBlob tempCanvas (currentQuality app))
  end.

End Codec.

(** The canvas every probe of one dead-zone search is encoded from. *)
Definition probeCanvas (app : Imagify) (img : Image) (file : File) : Canvas :=
  prepareCanvas (isPng file) img
                (width (calculateCompressionSize app))
                (height (calculateCompressionSize app)).

(** ** Metric engine *)

(** [ImageData]: dimensions and the RGBA buffer, row-major. *)
Module ImageData.
Record t := { width : nat; height : nat; data : list Z }.
End ImageData.

(** *** PSNR *)

(** Body of the pixel loop of [calculatePSNR]; the accumulator is
    [(mse, pixelCount)] before the normalisation of [mse]. *)
Definition psnrStep (d1 d2 : list Z) (acc : Z * Z) (i : nat) : Z * Z :=
  if byteAt d1 (i + 3) <? 255 then acc
  else
    (fst acc + ((byteAt d1 i - byteAt d2 i) ^ 2
                + (byteAt d1 (i + 1) - byteAt d2 (i + 1)) ^ 2
                + (byteAt d1 (i + 2) - byteAt d2 (i + 2)) ^ 2),
     snd acc + 1).

Definition psnrSums (d1 d2 : list Z) : Z * Z :=
  fold_left (psnrStep d1 d2) (pixelOffsets (length d1)) (0, 0).

(** The tail of [calculatePSNR], from [if (pixelCount === 0)] on. *)
Definition psnrOfSums (sums : Z * Z) : R :=
  let pixelCount := snd sums in
  if pixelCount =? 0 then 100%R
  else
    let mse := (IZR (fst sums) / IZR (pixelCount * 3))%R in
    if Rlt_dec mse 1e-10 then 100%R
    else Rmax 0 (10 * Math_log10 (255 ^ 2 / mse)).

Definition calculatePSNR (originalData compressedData : ImageData.t) : R :=
  psnrOfSums (psnrSums (ImageData.data originalData) (ImageData.data compressedData)).

(** *** SSIM *)

Definition K1 : R := 0.01.
Definition K2 : R := 0.03.
Definition L : R := 255.
Definition C1 : R := (K1 * L) ^ 2.
Definition C2 : R := (K2 * L) ^ 2.
Definition WINDOW_SIZE : nat := 8.

(** Luminance of the pixel stored at [index]. *)
Definition lum (d : list Z) (index : nat) : R :=
  (0.299 * IZR (byteAt d index) + 0.587 * IZR (byteAt d (index + 1))
   + 0.114 * IZR (byteAt d (index + 2)))%R.

(** The running sums of one window. *)
Record WindowSums := {
  sumX : R; sumY : R; sumX2 : R; sumY2 : R; sumXY : R;
  numPixels : Z;
  windowHasOpaquePixel : bool
}.

Definition emptyWindow : WindowSums :=
  {| sumX := 0; sumY := 0; sumX2 := 0; sumY2 := 0; sumXY := 0;
     numPixels := 0; windowHasOpaquePixel := false |}.

(** The values of [index] visited by the two inner loops ([j] outer, [i]
    inner) for the window whose top-left corner is [(x, y)]. *)
Definition windowIndices (width x y : nat) : list nat :=
  flat_map (fun j => map (fun i => (((y + j) * width + (x + i)) * 4)%nat)
                         (seq 0 WINDOW_SIZE))
           (seq 0 WINDOW_SIZE).

(** Body of the inner loops. *)
Definition windowStep (d1 d2 : list Z) (s : WindowSums) (index : nat) : WindowSums :=
  if byteAt d1 (index + 3) =? 0 then s
  else
    let lumX := lum d1 index in
    let lumY := lum d2 index in
    {| sumX := sumX s + lumX; sumY := sumY s + lumY;
       sumX2 := sumX2 s + lumX ^ 2; sumY2 := sumY2 s + lumY ^ 2;
       sumXY := sumXY s + lumX * lumY;
       numPixels := numPixels s + 1;
       windowHasOpaquePixel := true |}.

Definition windowSums (d1 d2 : list Z) (width x y : nat) : WindowSums :=
  fold_left (windowStep d1 d2) (windowIndices width x y) emptyWindow.

(** The SSIM value of a window that has at least one counted pixel, over the
    reals.  In binary64 the variance and the covariance round differently
    ([Binary64.windowSsim]), which shows when both images are the same. *)
Definition windowSsim (s : WindowSums) : R :=
  let n := IZR (numPixels s) in
  let meanX := (sumX s / n)%R in
  let meanY := (sumY s / n)%R in
  let varX := Rmax 0 (sumX2 s / n - meanX ^ 2) in
  let varY := Rmax 0 (sumY2 s / n - meanY ^ 2) in
  let covXY := (sumXY s / n - meanX * meanY)%R in
  (((2 * meanX * meanY + C1) * (2 * covXY + C2))
   / ((meanX ^ 2 + meanY ^ 2 + C1) * (varX + varY + C2)))%R.

(** The values [0, 8, 16, ...] of [for (let y = 0; y <= n - 8; y += 8)]. *)
Definition windowStarts (n : nat) : list nat :=
  map (fun k => (WINDOW_SIZE * k)%nat) (seq 0 (n / WINDOW_SIZE)).

(** The corners [(x, y)] in the order the two outer loops visit them. *)
Definition windowCorners (width height : nat) : list (nat * nat) :=
  flat_map (fun y => map (fun x => (x, y)) (windowStarts width)) (windowStarts height).

(** Whether the window is skipped by [if (!windowHasOpaquePixel || numPixels === 0) continue]. *)
Definition skipped (s : WindowSums) : bool :=
  negb (windowHasOpaquePixel s) || (numPixels s =? 0).

(** Body of the outer loops; the accumulator is [(totalSsim, windowCount)]. *)
Definition ssimStep (d1 d2 : list Z) (width : nat) (acc : R * Z) (corner : nat * nat) : R * Z :=
  let s := windowSums d1 d2 width (fst corner) (snd corner) in
  if skipped s then acc
  else ((fst acc + windowSsim s)%R, snd acc + 1).

Definition ssimTotals (d1 d2 : list Z) (width height : nat) : R * Z :=
  fold_left (ssimStep d1 d2 width) (windowCorners width height) (0%R, 0).

Definition calculateSSIM (img1 img2 : ImageData.t) : R :=
  let d1 := ImageData.data img1 in
  let d2 := ImageData.data img2 in
  let width := ImageData.width img1 in
  let height := ImageData.height img1 in
  if (width <? WINDOW_SIZE)%nat || (height <? WINDOW_SIZE)%nat then 1%R
  else
    let totals := ssimTotals d1 d2 width height in
    if 0 <? snd totals then Rmax 0 (Rmin 1 (fst totals / IZR (snd totals)))
    else 1%R.

(** ** Heat map *)

Record Color := { r : Z; g : Z; b : Z }.

Definition colors : list Color :=
  [ {| r := 0;   g := 0;   b := 255 |};   (* Blue *)
    {| r := 0;   g := 255; b := 255 |};   (* Cyan *)
    {| r := 0;   g := 255; b := 0 |};     (* Green *)
    {| r := 255; g := 255; b := 0 |};     (* Yellow *)
    {| r := 255; g := 0;   b := 0 |} ].   (* Red *)

(** [colors[i]]; [None] is [undefined]. *)
Definition colorAt (i : Z) : option Color :=
  if i <? 0 then None else nth_error colors (Z.to_nat i).

(** [None] is the [TypeError] raised by reading a component of [undefined]. *)
Definition getHeatMapColor (intensity : R) : option Color :=
  let intensity := Rmax 0 (Rmin 1 intensity) in
  let p := (intensity * IZR (Z.of_nat (length colors) - 1))%R in
  let i := Math_floor p in
  let j := Z.min (i + 1) (Z.of_nat (length colors) - 1) in
  let t := (p - IZR i)%R in
  match colorAt i, colorAt j with
  | Some ci, Some cj =>
      Some {| r := Math_round (IZR (r ci) * (1 - t) + IZR (r cj) * t);
              g := Math_round (IZR (g ci) * (1 - t) + IZR (g cj) * t);
              b := Math_round (IZR (b ci) * (1 - t) + IZR (b cj) * t) |}
  | _, _ => None
  end.

(** [diff] as computed for the pixel at offset [i]: the mean absolute
    difference of the R, G, B bytes. *)
Definition pixelDiff (originalData compressedPixelData : list Z) (i : nat) : R :=
  ((IZR (Z.abs (byteAt originalData i - byteAt compressedPixelData i))
    + IZR (Z.abs (byteAt originalData (i + 1) - byteAt compressedPixelData (i + 1)))
    + IZR (Z.abs (byteAt originalData (i + 2) - byteAt compressedPixelData (i + 2)))) / 3)%R.

(** [intensity] for the same pixel. *)
Definition pixelIntensity (originalData compressedPixelData : list Z) (i : nat) : R :=
  Rmin 1 (pixelDiff originalData compressedPixelData i / 255).

(** The four numbers handed to [heatMapData.set(..., i)] for the pixel at
    offset [i]. *)
Definition heatMapPixel (originalData compressedPixelData : list Z) (i : nat) : option (list R) :=
  if byteAt originalData (i + 3) <? 255 then Some [0%R; 0%R; 0%R; 0%R]
  else
    let intensity := pixelIntensity originalData compressedPixelData i in
    match getHeatMapColor intensity with
    | Some c =>
        let alpha := Rmax 30 (intensity * 225) in
        Some [IZR (r c); IZR (g c); IZR (b c); alpha]
    | None => None
    end.

(** [typedArray.set(values, offset)]; [None] is the [RangeError] of a write
    that does not fit. *)
Definition typedSet (target : list Z) (values : list R) (offset : nat) : option (list Z) :=
  if (offset + length values <=? length target)%nat then
    Some (firstn offset target ++ map ToUint8Clamp values
          ++ skipn (offset + length values) target)
  else None.

(** Body of the pixel loop of [updateHeatMap]; an exception ends the loop. *)
Definition heatMapStep (originalData compressedPixelData : list Z)
           (heatMapData : option (list Z)) (i : nat) : option (list Z) :=
  match heatMapData with
  | None => None
  | Some buffer =>
      match heatMapPixel originalData compressedPixelData i with
      | Some values => typedSet buffer values i
      | None => None
      end
  end.

(** The pixel loop of [updateHeatMap]: [heatMapData] starts as the all-zero
    buffer of [createImageData] and ends as returned here. *)
Definition updateHeatMap (displayWidth displayHeight : nat)
           (originalData compressedPixelData : list Z) : option (list Z) :=
  fold_left (heatMapStep originalData compressedPixelData)
            (pixelOffsets (length originalData))
            (Some (repeat 0 (4 * displayWidth * displayHeight))).

(** ** Well-formed pixel buffers and the quantities the properties mention *)

Definition isByte (z : Z) : bool := (0 <=? z) && (z <=? 255).

(** An [ImageData] as the canvas hands it out: [4 * width * height] bytes. *)
Definition wellFormed (img : ImageData.t) : bool :=
  (length (ImageData.data img) =? 4 * ImageData.width img * ImageData.height img)%nat
  && forallb isByte (ImageData.data img).

Definition sameSize (a b : ImageData.t) : bool :=
  (ImageData.width a =? ImageData.width b)%nat
  && (ImageData.height a =? ImageData.height b)%nat.

Definition sumZ (l : list Z) : Z := fold_right Z.add 0 l.

Definition sumR (l : list R) : R := fold_right Rplus 0%R l.

(** Offsets of the pixels of the reference buffer whose alpha is 255. *)
Definition includedOffsets (d1 : list Z) : list nat :=
  filter (fun i => byteAt d1 (i + 3) =? 255) (pixelOffsets (length d1)).

(** Squared R, G, B differences of the pixel at offset [i]. *)
Definition squaredError (d1 d2 : list Z) (i : nat) : Z :=
  (byteAt d1 i - byteAt d2 i) ^ 2
  + (byteAt d1 (i + 1) - byteAt d2 (i + 1)) ^ 2
  + (byteAt d1 (i + 2) - byteAt d2 (i + 2)) ^ 2.

(** The mean squared error over the included pixels: the sum of their
    squared differences divided by three times their number. *)
Definition meanSquaredError (d1 d2 : list Z) : R :=
  (IZR (sumZ (map (squaredError d1 d2) (includedOffsets d1)))
   / IZR (Z.of_nat (length (includedOffsets d1)) * 3))%R.

(** The running sums of the windows that contribute to the SSIM average,
    in visiting order. *)
Definition contributingWindows (d1 d2 : list Z) (width height : nat) : list WindowSums :=
  filter (fun s => negb (skipped s))
         (map (fun corner => windowSums d1 d2 width (fst corner) (snd corner))
              (windowCorners width height)).

(** Arithmetic mean of the per-window SSIM values. *)
Definition meanSsim (windows : list WindowSums) : R :=
  (sumR (map windowSsim windows) / IZR (Z.of_nat (length windows)))%R.

Definition clamp01 (x : R) : R := Rmax 0 (Rmin 1 x).

(** Some full 8x8 window of the image has a pixel of nonzero alpha. *)
Definition hasCountedWindow (img : ImageData.t) : bool :=
  existsb (fun corner =>
             existsb (fun index => negb (byteAt (ImageData.data img) (index + 3) =? 0))
                     (windowIndices (ImageData.width img) (fst corner) (snd corner)))
          (windowCorners (ImageData.width img) (ImageData.height img)).

(** The four bytes the loop of [updateHeatMap] stores for the pixel at
    offset [i], and the bytes of pixel number [k] in a buffer. *)
Definition storedPixel (originalData compressedPixelData : list Z) (i : nat) : list Z :=
  match heatMapPixel originalData compressedPixelData i with
  | Some values => map ToUint8Clamp values
  | None => []
  end.

Definition pixelBytes (buffer : list Z) (k : nat) : list Z :=
  firstn 4 (skipn (4 * k) buffer).

(** ** Concrete inputs used in the examples *)

(** An 800x600 JPEG of 50,000 bytes, no size limits entered, slider at 80. *)
Definition photo : Image :=
  {| naturalWidth := 800; naturalHeight := 600; bitmap := [] |}.

Definition session (mime : string) : Imagify :=
  {| originalImage := Some photo;
     originalFile := Some {| type := mime; size := 50000 |};
     originalSize := 50000;
     currentQuality := 80;
     maxWidthInput := None;
     maxHeightInput := None |}.

(** Encoders for the examples: every probe above the reference except
    quality 80; every probe above it; every probe below it. *)
Definition dipAt80 (_ : Canvas) (quality : Z) : BlobResult :=
  if quality =? 80 then Blob 49000 else Blob 60000.

Definition alwaysLarger (_ : Canvas) (_ : Z) : BlobResult := Blob 60000.

Definition alwaysSmaller (_ : Canvas) (_ : Z) : BlobResult := Blob 1000.

(** A fully opaque black image, and the same image with the red channel of
    its first pixel raised by one. *)
Definition opaqueBlack (n : nat) : list Z := concat (repeat [0; 0; 0; 255] n).

Definition blackImage (w h : nat) : ImageData.t :=
  {| ImageData.width := w; ImageData.height := h; ImageData.data := opaqueBlack (w * h) |}.

Definition nearlyBlackImage (w h : nat) : ImageData.t :=
  {| ImageData.width := w; ImageData.height := h;
     ImageData.data := [1; 0; 0; 255] ++ opaqueBlack (w * h - 1) |}.

(** Two 1x1 images that differ by three levels of red. *)
Definition onePixel (red : Z) : ImageData.t :=
  {| ImageData.width := 1; ImageData.height := 1; ImageData.data := [red; 20; 30; 255] |}.

(** Two opaque pixels side by side that differ only in the red byte of the
    second one. *)
Definition pixelPair (red : Z) : ImageData.t :=
  {| ImageData.width := 2; ImageData.height := 1;
     ImageData.data := [10; 20; 30; 255; red; 20; 30; 255] |}.

(** A fully opaque white image. *)
Definition opaqueWhite (n : nat) : list Z := concat (repeat [255; 255; 255; 255] n).

Definition whiteImage (w h : nat) : ImageData.t :=
  {| ImageData.width := w; ImageData.height := h; ImageData.data := opaqueWhite (w * h) |}.

(** A 1x1 image whose only pixel is fully transparent. *)
Definition clearPixel : ImageData.t :=
  {| ImageData.width := 1; ImageData.height := 1; ImageData.data := [10; 20; 30; 0] |}.


(** * The rest of the class

    The functions around the core: the dead-zone highlight, the preview
    blob and its badge, the reset, the metrics shown next to the preview,
    the upload check, the size formatter and the download. *)

From Stdlib Require Import Ascii DecimalString.

(** A number in a template string, for integers. *)
Definition showZ (z : Z) : string := NilZero.string_of_int (Z.to_int z).

(** ** Dead-zone highlight *)

(** [updateDeadZoneHighlight]: the percentage written to the style property
    [--deadzone-width]; [None] when no image is loaded and the property is
    left as it was.  [findDeadZoneThreshold] catches what its probes throw,
    so the [catch] branch of this function is never entered. *)
Definition updateDeadZoneHighlight
           (toBlob : Canvas -> Z -> BlobResult) (app : Imagify) : option Z :=
  match originalImage app with
  | None => None
  | Some _ =>
      let threshold := threshold (findDeadZoneThreshold toBlob app) in
      let deadZoneWidth := if threshold <=? 100 then (100 - threshold) + 1 else 0 in
      Some deadZoneWidth
  end.

(** ** Preview blob *)

(** What [compressImage] hands to [processFinalBlob]: [this.originalFile]
    itself, or the blob the encoder made.  Nothing is handed over when the
    encoder gave [null] or the call failed. *)
Inductive PreviewBlob :=
| TheOriginalFile (f : option File)
| FreshBlob (blobSize : Z).

Definition previewBlob (c : Compression) : option PreviewBlob :=
  match c with
  | UsedOriginal f => Some (TheOriginalFile f)
  | Encoded _ (Blob blobSize) => Some (FreshBlob blobSize)
  | Encoded _ NullBlob => None
  | Encoded _ Threw => None
  | NothingToDo => None
  | CompressionError => None
  end.

(** [isUsingOriginal] of [processFinalBlob], [blob === this.originalFile]:
    it decides whether the best-quality badge is displayed. *)
Definition isUsingOriginal (blob : PreviewBlob) : bool :=
  match blob with
  | TheOriginalFile _ => true
  | FreshBlob _ => false
  end.

(** The display of the best-quality badge once [compressImage] and the
    callback of the encoder have run, given whether it was displayed before:
    [processFinalBlob] sets it from [isUsingOriginal]; when no blob reaches
    [processFinalBlob] (the encoder gave [null], or the call failed) nothing
    touches the badge. *)
Definition bestQualityBadge (displayed : bool) (c : Compression) : bool :=
  match previewBlob c with
  | Some blob => isUsingOriginal blob
  | None => displayed
  end.

(** ** Reset *)

(** What [resetToOriginal] leaves behind: the state, the highlight width and
    the compression it started. *)
Record Reset := {
  afterReset : Imagify;
  highlight : option Z;
  restarted : option Compression
}.

(** [resetToOriginal], given the value of [this.isProcessing]; [None] is the
    early return of a busy application.  Emptying the two size fields makes
    [parseInt] give [NaN] on them. *)
Definition resetToOriginal (toBlob : Canvas -> Z -> BlobResult)
           (isProcessing : bool) (app : Imagify) : option Reset :=
  if isProcessing then None
  else
    let app' := {| originalImage := originalImage app;
                   originalFile := originalFile app;
                   originalSize := originalSize app;
                   currentQuality := 100;
                   maxWidthInput := None;
                   maxHeightInput := None |} in
    match originalImage app' with
    | Some _ =>
        Some {| afterReset := app';
                highlight := updateDeadZoneHighlight toBlob app';
                restarted := Some (compressImage toBlob app') |}
    | None =>
        Some {| afterReset := app'; highlight := Some 0; restarted := None |}
    end.

(** ** Size metrics *)

Record Metrics := {
  psnr : R;
  ssim : R;
  compressionRatio : R;
  sizeReduction : R
}.

(** [calculateMetrics], up to the numbers it formats into the page; the two
    [ImageData] are what [getImageData] returned for the resized original and
    for the compressed canvas, [currentSize] is [compressedBlob.size].
    [None] is a return through [resetMetricsUI]. *)
Definition calculateMetrics (app : Imagify)
           (originalData compressedData : ImageData.t) (currentSize : Z) : option Metrics :=
  match originalImage app, originalFile app with
  | Some _, Some _ =>
      let compWidth := ImageData.width compressedData in
      let compHeight := ImageData.height compressedData in
      if (compWidth =? 0)%nat || (compHeight =? 0)%nat then None
      else
        Some {| psnr := calculatePSNR originalData compressedData;
                ssim := calculateSSIM originalData compressedData;
                compressionRatio :=
                  if (0 <? originalSize app) && (0 <? currentSize)
                  then (IZR (originalSize app) / IZR currentSize)%R
                  else 1%R;
                sizeReduction :=
                  if 0 <? originalSize app
                  then Rmax 0 (IZR (originalSize app - currentSize)
                               / IZR (originalSize app) * 100)
                  else 0%R |}
  | _, _ => None
  end.

(** ** Upload check *)

Inductive Selection :=
| Refused (message : string)
| Taken (file : File).

(** The checks at the head of [handleFileSelect]; [Taken file] is followed by
    [this.originalFile = file; this.originalSize = file.size]. *)
Definition handleFileSelect (file : option File) : Selection :=
  match file with
  | None => Refused "No file selected."
  | Some f =>
      if negb (String.prefix "image/" (type f))
      then Refused "Please select a valid image file (JPG, PNG, WebP)."
      else if 10 * 1024 * 1024 <? size f
           then Refused "File size must be less than 10MB."
           else Taken f
  end.

(** ** Size formatter *)

Definition sizes : list string := ["B"; "KB"; "MB"; "GB"]%string.

(** [sizes[i]] inside a template string: a missing entry prints as
    [undefined]. *)
Definition sizeUnit (i : Z) : string :=
  match (if i <? 0 then None else nth_error sizes (Z.to_nat i)) with
  | Some unit => unit
  | None => "undefined"
  end.

(** [parseFloat(x.toFixed(1))] in a template string, from the integer [n]
    nearest to [10 x]: one decimal, dropped when it is zero. *)
Definition showTenths (n : Z) : string :=
  if n mod 10 =? 0 then showZ (n / 10)
  else (showZ (n / 10) ++ "." ++ showZ (n mod 10))%string.

(** [x.toFixed(1)] as that integer: the nearest one, the larger of two. *)
Definition toFixed1 (x : R) : Z := Math_round (x * 10).

(** The quotient of the two logarithms is exact here.  [Math.log] is only
    approximated, which can move the exponent at sizes next to a power of
    1024 from 1024^3 on; the properties below are about smaller sizes. *)
Definition formatFileSize (bytes : Z) : string :=
  if bytes <=? 0 then "0 B"
  else
    let k := 1024 in
    let i := Math_floor (ln (IZR bytes) / ln (IZR k)) in
    (showTenths (toFixed1 (IZR bytes / powerRZ (IZR k) i)) ++ " " ++ sizeUnit i)%string.

(** The same text from integer arithmetic, for [1024^e <= bytes]. *)
Definition formatWithUnit (e : nat) (bytes : Z) : string :=
  (showTenths ((20 * bytes + 1024 ^ Z.of_nat e) / (2 * 1024 ^ Z.of_nat e))
   ++ " " ++ sizeUnit (Z.of_nat e))%string.

(** ** Download *)

(** [name.split('.')] and [parts.join('.')]. *)
Fixpoint splitDots (s : string) : list string :=
  match s with
  | EmptyString => [EmptyString]
  | String c rest =>
      if Ascii.eqb c "." then EmptyString :: splitDots rest
      else match splitDots rest with
           | [] => [String c EmptyString]
           | part :: parts => String c part :: parts
           end
  end.

Fixpoint joinDots (parts : list string) : string :=
  match parts with
  | [] => EmptyString
  | part :: rest =>
      match rest with
      | [] => part
      | _ :: _ => (part ++ "." ++ joinDots rest)%string
      end
  end.

(** [originalBaseName] and [originalExt] of [downloadCompressed]. *)
Definition nameParts (name : string) : string * string :=
  let originalNameParts := splitDots name in
  let originalExt :=
    if (1 <? length originalNameParts)%nat then last originalNameParts "file"%string
    else "file"%string in
  let remaining :=
    if (1 <? length originalNameParts)%nat then removelast originalNameParts
    else originalNameParts in
  let joined := joinDots remaining in
  let originalBaseName := if String.eqb joined "" then "download"%string else joined in
  (originalBaseName, originalExt).

Module Download.

(** A blob as an object: its identity and its byte size. *)
Record Blob := { id : nat; size : Z }.

(** The uploaded [File]: a blob with a name. *)
Record NamedFile := { blob : Blob; name : string }.

(** The fields [downloadCompressed] reads. *)
Record State := {
  compressedBlob : option Blob;
  originalFile : option NamedFile;
  currentQuality : Z
}.

Inductive Outcome :=
| Failed (message : string)
| Saved (blobToDownload : Blob) (fileName : string) (warning : option string).

(** [a === b] on blobs. *)
Definition same (a b : Blob) : bool := (id a =? id b)%nat.

Definition downloadCompressed (st : State) : Outcome :=
  match compressedBlob st with
  | None => Failed "No compressed image available for download."
  | Some compressed =>
      match originalFile st with
      | None => Failed "Original file information is missing."
      | Some original =>
          let (originalBaseName, originalExt) := nameParts (name original) in
          if same compressed (blob original) then
            Saved (blob original)
                  (originalBaseName ++ "_original." ++ originalExt)%string None
          else if (size (blob original) <? size compressed)
                  && negb (currentQuality st =? 100) then
            Saved (blob original)
                  (originalBaseName ++ "_original." ++ originalExt)%string
                  (Some ("Warning: Quality " ++ showZ (currentQuality st)
                         ++ "% file is larger (" ++ formatFileSize (size compressed)
                         ++ ") than original (" ++ formatFileSize (size (blob original))
                         ++ "). Downloading original.")%string)
          else
            Saved compressed
                  (originalBaseName ++ "_compressed_q" ++ showZ (currentQuality st)
                   ++ ".jpg")%string None
      end
  end.

End Download.

(** ** Further inputs for the examples *)

(** Strictly decreasing lists of integers. *)
Fixpoint descending (l : list Z) : bool :=
  match l with
  | [] => true
  | x :: rest =>
      match rest with
      | [] => true
      | y :: _ => (y <? x) && descending rest
      end
  end.

(** No ["."] in the string. *)
Fixpoint dotFree (s : string) : bool :=
  match s with
  | EmptyString => true
  | String c rest => negb (Ascii.eqb c ".") && dotFree rest
  end.

(** The photo of the examples as an upload of 50,000 bytes named
    [holiday.v2.png], with a preview blob of 60,000 bytes. *)
Definition largerPreview : Download.State :=
  {| Download.compressedBlob := Some {| Download.id := 2; Download.size := 60000 |};
     Download.originalFile :=
       Some {| Download.blob := {| Download.id := 1; Download.size := 50000 |};
               Download.name := "holiday.v2.png" |};
     Download.currentQuality := 95 |}.

(** The photo of the examples with limits typed into the two size fields. *)
Definition limitedSession (maxWidth maxHeight : option Z) : Imagify :=
  {| originalImage := Some photo;
     originalFile := Some {| type := "image/jpeg"; size := 50000 |};
     originalSize := 50000;
     currentQuality := 80;
     maxWidthInput := maxWidth;
     maxHeightInput := maxHeight |}.

(** The photo of the examples right after loading: quality 100, no limits. *)
Definition untouched : Imagify :=
  {| originalImage := Some photo;
     originalFile := Some {| type := "image/jpeg"; size := 50000 |};
     originalSize := 50000;
     currentQuality := 100;
     maxWidthInput := None;
     maxHeightInput := None |}.

(** * Binary64 arithmetic

    The metric engine computes in IEEE 754 binary64.  Where a property
    depends on the rounding of the arithmetic, the function is read a second
    time over binary64 numbers, operation by operation and in the order of
    the source.  [x ** 2] is taken as the correctly rounded square. *)

From Stdlib Require Floats Uint63.

Module Binary64.

Import PrimFloat.

#[local] Set Warnings "-inexact-float".

(** A byte of a pixel buffer, or a loop counter, as a Number. *)
Definition ofZ (z : Z) : float := PrimFloat.of_uint63 (Uint63.of_Z z).

(** [Math.max] and [Math.min] of two arguments: [NaN] if either is [NaN],
    and [-0] below [+0]. *)
Definition Math_max (x y : float) : float :=
  if PrimFloat.is_nan x || PrimFloat.is_nan y then PrimFloat.nan
  else if PrimFloat.ltb x y then y
  else if PrimFloat.ltb y x then x
  else if PrimFloat.get_sign x then y else x.

Definition Math_min (x y : float) : float :=
  if PrimFloat.is_nan x || PrimFloat.is_nan y then PrimFloat.nan
  else if PrimFloat.ltb x y then x
  else if PrimFloat.ltb y x then y
  else if PrimFloat.get_sign x then x else y.

Definition square (x : float) : float := (x * x)%float.

Definition K1 : float := 0.01%float.
Definition K2 : float := 0.03%float.
Definition L : float := 255%float.
Definition C1 : float := square (K1 * L)%float.
Definition C2 : float := square (K2 * L)%float.

Definition lum (d : list Z) (index : nat) : float :=
  (0.299 * ofZ (byteAt d index) + 0.587 * ofZ (byteAt d (index + 1))
   + 0.114 * ofZ (byteAt d (index + 2)))%float.

Record WindowSums := {
  sumX : float; sumY : float; sumX2 : float; sumY2 : float; sumXY : float;
  numPixels : Z;
  windowHasOpaquePixel : bool
}.

Definition emptyWindow : WindowSums :=
  {| sumX := 0; sumY := 0; sumX2 := 0; sumY2 := 0; sumXY := 0;
     numPixels := 0; windowHasOpaquePixel := false |}.

Definition windowStep (d1 d2 : list Z) (s : WindowSums) (index : nat) : WindowSums :=
  if byteAt d1 (index + 3) =? 0 then s
  else
    let lumX := lum d1 index in
    let lumY := lum d2 index in
    {| sumX := sumX s + lumX; sumY := sumY s + lumY;
       sumX2 := sumX2 s + square lumX; sumY2 := sumY2 s + square lumY;
       sumXY := sumXY s + lumX * lumY;
       numPixels := numPixels s + 1;
       windowHasOpaquePixel := true |}.

Definition windowSums (d1 d2 : list Z) (width x y : nat) : WindowSums :=
  fold_left (windowStep d1 d2) (windowIndices width x y) emptyWindow.

Definition windowSsim (s : WindowSums) : float :=
  let n := ofZ (numPixels s) in
  let meanX := (sumX s / n)%float in
  let meanY := (sumY s / n)%float in
  let varX := Math_max 0 (sumX2 s / n - square meanX) in
  let varY := Math_max 0 (sumY2 s / n - square meanY) in
  let covXY := (sumXY s / n - meanX * meanY)%float in
  (((2 * meanX * meanY + C1) * (2 * covXY + C2))
   / ((square meanX + square meanY + C1) * (varX + varY + C2)))%float.

Definition skipped (s : WindowSums) : bool :=
  negb (windowHasOpaquePixel s) || (numPixels s =? 0).

Definition ssimStep (d1 d2 : list Z) (width : nat) (acc : float * Z) (corner : nat * nat)
  : float * Z :=
  let s := windowSums d1 d2 width (fst corner) (snd corner) in
  if skipped s then acc
  else ((fst acc + windowSsim s)%float, snd acc + 1).

Definition ssimTotals (d1 d2 : list Z) (width height : nat) : float * Z :=
  fold_left (ssimStep d1 d2 width) (windowCorners width height) (0%float, 0).

Definition calculateSSIM (img1 img2 : ImageData.t) : float :=
  let d1 := ImageData.data img1 in
  let d2 := ImageData.data img2 in
  let width := ImageData.width img1 in
  let height := ImageData.height img1 in
  if (width <? WINDOW_SIZE)%nat || (height <? WINDOW_SIZE)%nat then 1%float
  else
    let totals := ssimTotals d1 d2 width height in
    if 0 <? snd totals
    then Math_max 0 (Math_min 1 (fst totals / ofZ (snd totals)))
    else 1%float.

End Binary64.

(** An opaque 8x8 image of one colour, and the colour (0, 0, 20). *)
Definition uniformImage (red green blue : Z) : ImageData.t :=
  {| ImageData.width := 8; ImageData.height := 8;
     ImageData.data := concat (repeat [red; green; blue; 255] 64) |}.

Definition darkBlueImage : ImageData.t := uniformImage 0 0 20.

(** * Properties *)

(** ** Rounding *)

Lemma Int_part_bounds (x : R) : (IZR (Int_part x) <= x < IZR (Int_part x) + 1)%R.
Proof. destruct (base_Int_part x); lra. Qed.

Lemma Int_part_unique (x : R) (z : Z) : (IZR z <= x < IZR z + 1)%R -> Int_part x = z.
Proof. intros H; symmetry; apply Int_part_spec; lra. Qed.

Lemma Int_part_IZR (z : Z) : Int_part (IZR z) = z.
Proof. apply Int_part_unique; lra. Qed.

Lemma Math_round_IZR (z : Z) : Math_round (IZR z) = z.
Proof. unfold Math_round; apply Int_part_unique; lra. Qed.

Lemma Math_round_le (x : R) (z : Z) : (x <= IZR z)%R -> Math_round x <= z.
Proof.
  intros H; unfold Math_round.
  destruct (Int_part_bounds (x + / 2)) as [Hlo _].
  apply Z.lt_succ_r, lt_IZR; rewrite succ_IZR; lra.
Qed.

Lemma Math_round_ge (x : R) (z : Z) : (IZR z <= x)%R -> z <= Math_round x.
Proof.
  intros H; unfold Math_round.
  destruct (Int_part_bounds (x + / 2)) as [_ Hhi].
  apply Z.lt_succ_r, lt_IZR; rewrite succ_IZR; lra.
Qed.

Lemma Math_min3_le_1 (a b : R) : (Math_min3 a b 1 <= 1)%R.
Proof. unfold Math_min3; apply Rmin_r. Qed.

Lemma Math_min3_eq_1 (a b : R) : (1 <= a)%R -> (1 <= b)%R -> Math_min3 a b 1 = 1%R.
Proof.
  intros Ha Hb; unfold Math_min3.
  rewrite (Rmin_right (Rmin a b) 1); [reflexivity | apply Rmin_glb; assumption].
Qed.

(** ** Resizer *)

Section Resizer.

Variables originalWidth originalHeight : Z.
Hypothesis width_pos : 0 < originalWidth.
Hypothesis height_pos : 0 < originalHeight.

Lemma scaled_le (n : Z) (a b : R) :
  0 < n -> Z.max 1 (Math_round (IZR n * Math_min3 a b 1)) <= n.
Proof.
  intros Hn; apply Z.max_lub; [lia |].
  apply Math_round_le.
  pose proof (Math_min3_le_1 a b) as Hr.
  apply IZR_lt in Hn; nra.
Qed.

Lemma scaled_id (n : Z) (a b : R) :
  0 < n -> (1 <= a)%R -> (1 <= b)%R ->
  Z.max 1 (Math_round (IZR n * Math_min3 a b 1)) = n.
Proof.
  intros Hn Ha Hb; rewrite Math_min3_eq_1 by assumption.
  rewrite Rmult_1_r, Math_round_IZR; lia.
Qed.

Lemma quotient_ge_1 (m n : Z) : 0 < n -> n <= m -> (1 <= IZR m / IZR n)%R.
Proof.
  intros Hn Hm; apply IZR_lt in Hn; apply IZR_le in Hm.
  apply Rmult_le_reg_r with (IZR n); [lra |].
  unfold Rdiv; rewrite Rmult_assoc, Rinv_l by lra; lra.
Qed.

Lemma guard_passes :
  (originalWidth =? 0) || (originalHeight =? 0) = false.
Proof.
  apply orb_false_iff; split; apply Z.eqb_neq; lia.
Qed.

Lemma calculateDisplaySize_le (maxWidth maxHeight : Z) :
  width (calculateDisplaySize originalWidth originalHeight maxWidth maxHeight)
    <= originalWidth
  /\ height (calculateDisplaySize originalWidth originalHeight maxWidth maxHeight)
    <= originalHeight.
Proof.
  unfold calculateDisplaySize; rewrite guard_passes; simpl.
  split; apply scaled_le; assumption.
Qed.

Lemma calculateDisplaySize_id (maxWidth maxHeight : Z) :
  originalWidth <= maxWidth -> originalHeight <= maxHeight ->
  calculateDisplaySize originalWidth originalHeight maxWidth maxHeight
  = {| width := originalWidth; height := originalHeight |}.
Proof.
  intros Hw Hh; unfold calculateDisplaySize; rewrite guard_passes.
  rewrite !scaled_id; auto using quotient_ge_1.
Qed.

Lemma parsedOr_unconstrained (parsed : option Z) (n : Z) :
  unconstrained parsed n = true -> n <= parsedOr parsed n.
Proof.
  destruct parsed as [z |]; simpl; [| lia].
  destruct (z =? 0) eqn:E; simpl; [lia |].
  intros H; apply Z.leb_le in H; exact H.
Qed.

Variable app : Imagify.
Variable content : list Z.
Hypothesis loaded :
  originalImage app
  = Some {| naturalWidth := originalWidth; naturalHeight := originalHeight;
            bitmap := content |}.

Lemma calculateCompressionSize_le :
  width (calculateCompressionSize app) <= originalWidth
  /\ height (calculateCompressionSize app) <= originalHeight.
Proof.
  unfold calculateCompressionSize; rewrite loaded; simpl.
  split; apply scaled_le; assumption.
Qed.

Lemma calculateCompressionSize_id :
  unconstrained (maxWidthInput app) originalWidth = true ->
  unconstrained (maxHeightInput app) originalHeight = true ->
  calculateCompressionSize app
  = {| width := originalWidth; height := originalHeight |}.
Proof.
  intros Hw Hh; unfold calculateCompressionSize; rewrite loaded; simpl.
  rewrite !scaled_id; auto using quotient_ge_1, parsedOr_unconstrained.
Qed.

End Resizer.

(** Claim C7. For positive source dimensions neither resizer returns a dimension
    larger than the source one (the ratio is capped at 1), and when the
    limits are unset or at least the source dimensions the result is the
    source size. *)
Theorem resizer_never_upscales
        (app : Imagify) (img : Image) (maxWidth maxHeight : Z)
        (Hloaded : originalImage app = Some img)
        (Hwidth : 0 < naturalWidth img)
        (Hheight : 0 < naturalHeight img) :
  let source := {| width := naturalWidth img; height := naturalHeight img |} in
  let display :=
    calculateDisplaySize (naturalWidth img) (naturalHeight img) maxWidth maxHeight in
  let target := calculateCompressionSize app in
  (width display <= width source /\ height display <= height source)
  /\ (width target <= width source /\ height target <= height source)
  /\ (naturalWidth img <= maxWidth -> naturalHeight img <= maxHeight ->
      display = source)
  /\ (unconstrained (maxWidthInput app) (naturalWidth img) = true ->
      unconstrained (maxHeightInput app) (naturalHeight img) = true ->
      target = source).
Proof.
  destruct img as [nw nh content]; simpl in *.
  repeat split.
  - apply calculateDisplaySize_le; assumption.
  - apply calculateDisplaySize_le; assumption.
  - apply (calculateCompressionSize_le nw nh Hwidth Hheight app content Hloaded).
  - apply (calculateCompressionSize_le nw nh Hwidth Hheight app content Hloaded).
  - apply calculateDisplaySize_id; assumption.
  - apply (calculateCompressionSize_id nw nh Hwidth Hheight app content Hloaded).
Qed.

(** The 800x600 photo with no limits keeps its size, and the 400x400
    preview box does not enlarge it. *)
Lemma resizer_never_upscales_witness :
  let display := calculateDisplaySize 800 600 400 400 in
  (width display <= 800 /\ height display <= 600)
  /\ calculateCompressionSize (session "image/jpeg") = {| width := 800; height := 600 |}.
Proof.
  pose proof (resizer_never_upscales (session "image/jpeg") photo 400 400
                eq_refl eq_refl eq_refl) as H.
  simpl in H. destruct H as (Hd & _ & _ & Ht).
  split; [exact Hd | apply Ht; reflexivity].
Defined.

(** ** Dead-zone search *)

Section DeadZoneSearch.

Variable toBlob : Canvas -> Z -> BlobResult.

Let probe (c : Canvas) (quality : Z) : EncodeCall :=
  {| encodedCanvas := c; encodedQuality := quality |}.

(** A run of candidates that all exceed the reference, followed by one
    that does not: the scan stops there. *)
Lemma scanQualities_first_fit (c : Canvas) (reference : Z) (pre : list Z) :
  forall (q : Z) (post : list Z) (t0 : Z),
    (forall x, In x pre -> exceeds reference (toBlob c x) = true) ->
    exceeds reference (toBlob c q) = false ->
    scanQualities toBlob c reference (pre ++ q :: post) t0
    = (q + 1, map (probe c) (pre ++ [q])).
Proof.
  induction pre as [| x pre IH]; intros q post t0 Hpre Hq; simpl.
  - unfold exceeds in Hq.
    destruct (toBlob c q) as [blobSize | |]; try reflexivity.
    rewrite Hq; reflexivity.
  - assert (Hx : exceeds reference (toBlob c x) = true) by (apply Hpre; left; reflexivity).
    unfold exceeds in Hx.
    destruct (toBlob c x) as [blobSize | |]; try discriminate.
    rewrite Hx, (IH q post x); [reflexivity | | assumption].
    intros y Hy; apply Hpre; right; exact Hy.
Qed.

Lemma last_default (l : list Z) (a b : Z) : l <> [] -> last l a = last l b.
Proof.
  induction l as [| x [| y l] IH]; intros Hne; [contradiction | reflexivity |].
  change (last (y :: l) a = last (y :: l) b); apply IH; discriminate.
Qed.

(** Every candidate exceeds the reference: the scan runs to the end and
    leaves the last candidate in [thresholdQuality]. *)
Lemma scanQualities_all_exceed (c : Canvas) (reference : Z) (qualities : list Z) :
  forall t0 : Z,
    (forall x, In x qualities -> exceeds reference (toBlob c x) = true) ->
    scanQualities toBlob c reference qualities t0
    = (last qualities t0, map (probe c) qualities).
Proof.
  induction qualities as [| x rest IH]; intros t0 Hall; simpl; [reflexivity |].
  assert (Hx : exceeds reference (toBlob c x) = true) by (apply Hall; left; reflexivity).
  unfold exceeds in Hx.
  destruct (toBlob c x) as [blobSize | |]; try discriminate.
  rewrite Hx, (IH x) by (intros y Hy; apply Hall; right; exact Hy).
  destruct rest as [| y rest]; [reflexivity |].
  rewrite (last_default (y :: rest) x t0) by discriminate; reflexivity.
Qed.

Lemma testQualities_range (x : Z) : In x testQualities -> 70 <= x <= 99.
Proof.
  unfold testQualities; simpl; intros H.
  repeat (destruct H as [H | H]; [lia |]); contradiction.
Qed.

Variables (app : Imagify) (img : Image) (file : File).
Hypothesis loaded : originalImage app = Some img.
Hypothesis selected : originalFile app = Some file.
Hypothesis nonempty : originalSize app <> 0.

Let probeCanvas : Canvas := probeCanvas app img file.

Lemma target_nonzero :
  (width (calculateCompressionSize app) =? 0)
  || (height (calculateCompressionSize app) =? 0) = false.
Proof.
  unfold calculateCompressionSize; rewrite loaded; simpl.
  apply orb_false_iff; split; apply Z.eqb_neq; lia.
Qed.

Lemma findDeadZoneThreshold_scan :
  findDeadZoneThreshold toBlob app
  = let (thresholdQuality, calls) :=
      scanQualities toBlob probeCanvas (originalSize app) testQualities 101 in
    {| threshold := Z.max 1 (Z.min thresholdQuality 101); probes := calls |}.
Proof.
  unfold findDeadZoneThreshold; rewrite loaded, selected.
  apply Z.eqb_neq in nonempty; rewrite nonempty, target_nonzero.
  reflexivity.
Qed.

Lemma findDeadZoneThreshold_first_fit (pre : list Z) (q : Z) (post : list Z) :
  testQualities = pre ++ q :: post ->
  (forall x, In x pre -> exceeds (originalSize app) (toBlob probeCanvas x) = true) ->
  exceeds (originalSize app) (toBlob probeCanvas q) = false ->
  findDeadZoneThreshold toBlob app
  = {| threshold := q + 1; probes := map (probe probeCanvas) (pre ++ [q]) |}.
Proof.
  intros Hsplit Hpre Hq.
  rewrite findDeadZoneThreshold_scan, Hsplit.
  rewrite (scanQualities_first_fit _ _ pre q post 101 Hpre Hq).
  assert (Hin : In q testQualities) by (rewrite Hsplit; apply in_elt).
  apply testQualities_range in Hin.
  f_equal; lia.
Qed.

Lemma findDeadZoneThreshold_all_exceed :
  (forall x, In x testQualities ->
             exceeds (originalSize app) (toBlob probeCanvas x) = true) ->
  findDeadZoneThreshold toBlob app
  = {| threshold := 70; probes := map (probe probeCanvas) testQualities |}.
Proof.
  intros Hall.
  rewrite findDeadZoneThreshold_scan.
  rewrite (scanQualities_all_exceed _ _ testQualities 101 Hall).
  reflexivity.
Qed.

End DeadZoneSearch.

Lemma findDeadZoneThreshold_range (toBlob : Canvas -> Z -> BlobResult) (app : Imagify) :
  1 <= threshold (findDeadZoneThreshold toBlob app) <= 101.
Proof.
  unfold findDeadZoneThreshold.
  destruct (originalImage app) as [img |]; [| simpl; lia].
  destruct (originalFile app) as [file |]; [| simpl; lia].
  destruct (originalSize app =? 0); [simpl; lia |].
  destruct (_ || _); [simpl; lia |].
  destruct (scanQualities _ _ _ _ _) as [t calls]; simpl; lia.
Qed.

(** Claim C1. With an image of positive size loaded, the search walks the ladder
    99, 98, ..., 70 downwards, encoding the canvas prepared at the target
    size once per candidate: while the encoded size exceeds the reference it
    moves on to the next lower candidate; the first candidate [q] whose size
    does not exceed the reference ends the scan, no lower candidate is
    encoded, and the result is [q + 1]. *)
Theorem deadzone_first_fit
        (toBlob : Canvas -> Z -> BlobResult)
        (app : Imagify) (img : Image) (file : File)
        (pre : list Z) (q : Z) (post : list Z)
        (Hloaded : originalImage app = Some img)
        (Hselected : originalFile app = Some file)
        (Hnonempty : originalSize app <> 0)
        (Hwidth : 0 < naturalWidth img)
        (Hheight : 0 < naturalHeight img)
        (Hladder : [99; 98; 97; 96; 95; 94; 93; 92; 91; 90; 88; 85; 80; 75; 70]
                   = pre ++ q :: post)
        (Hpre : forall x, In x pre ->
                  exceeds (originalSize app) (toBlob (probeCanvas app img file) x) = true)
        (Hq : exceeds (originalSize app) (toBlob (probeCanvas app img file) q) = false) :
  let target := calculateCompressionSize app in
  let result := findDeadZoneThreshold toBlob app in
  threshold result = q + 1
  /\ map encodedQuality (probes result) = pre ++ [q]
  /\ (forall call, In call (probes result) ->
        canvasWidth (encodedCanvas call) = width target
        /\ canvasHeight (encodedCanvas call) = height target).
Proof.
  simpl.
  rewrite (findDeadZoneThreshold_first_fit toBlob app img file
             Hloaded Hselected Hnonempty pre q post Hladder Hpre Hq); simpl.
  split; [reflexivity |]. split.
  - rewrite map_map; simpl; apply map_id.
  - intros call Hin; apply in_map_iff in Hin; destruct Hin as (x & <- & _).
    simpl; unfold probeCanvas, prepareCanvas.
    destruct (isPng file); simpl; split; reflexivity.
Qed.

(** Reference 50,000 bytes; every probe is larger except quality 80, which
    gives 49,000 bytes: the scan stops at 80 and reports 81. *)
Lemma deadzone_first_fit_witness :
  threshold (findDeadZoneThreshold dipAt80 (session "image/jpeg")) = 81
  /\ map encodedQuality (probes (findDeadZoneThreshold dipAt80 (session "image/jpeg")))
     = [99; 98; 97; 96; 95; 94; 93; 92; 91; 90; 88; 85; 80].
Proof.
  assert (Hnonempty : originalSize (session "image/jpeg") <> 0) by (simpl; lia).
  assert (Hpre : forall x, In x [99; 98; 97; 96; 95; 94; 93; 92; 91; 90; 88; 85] ->
            exceeds (originalSize (session "image/jpeg"))
              (dipAt80 (probeCanvas (session "image/jpeg") photo
                                    {| type := "image/jpeg"; size := 50000 |}) x) = true).
  { intros x Hx; simpl in Hx.
    repeat (destruct Hx as [Hx | Hx]; [subst x; reflexivity |]); contradiction. }
  destruct (deadzone_first_fit dipAt80 (session "image/jpeg") photo
              {| type := "image/jpeg"; size := 50000 |}
              [99; 98; 97; 96; 95; 94; 93; 92; 91; 90; 88; 85] 80 [75; 70]
              eq_refl eq_refl Hnonempty eq_refl eq_refl eq_refl Hpre eq_refl)
    as (Ht & Hp & _).
  split; [exact Ht | exact Hp].
Defined.

(** Claim C2, as the code has it. When every candidate exceeds the reference the
    result is the lowest candidate itself, 70; when candidate 99 does not
    exceed the reference the result is 100; and for every input, degenerate
    ones included, the result lies in [1, 101]. *)
Theorem deadzone_extremes
        (toBlob : Canvas -> Z -> BlobResult) (app : Imagify) :
  let result := threshold (findDeadZoneThreshold toBlob app) in
  (forall img file,
      originalImage app = Some img ->
      originalFile app = Some file ->
      originalSize app <> 0 ->
      let oversize quality :=
        exceeds (originalSize app) (toBlob (probeCanvas app img file) quality) in
      ((forall quality, In quality testQualities -> oversize quality = true) ->
       result = 70)
      /\ (oversize 99 = false -> result = 100))
  /\ 1 <= result <= 101.
Proof.
  cbv zeta; split; [| apply findDeadZoneThreshold_range].
  intros img file Hloaded Hselected Hnonempty; split.
  - intros Hall.
    rewrite (findDeadZoneThreshold_all_exceed toBlob app img file
               Hloaded Hselected Hnonempty Hall); reflexivity.
  - intros H99.
    rewrite (findDeadZoneThreshold_first_fit toBlob app img file
               Hloaded Hselected Hnonempty [] 99 (tl testQualities) eq_refl);
      [reflexivity | intros x [] | exact H99].
Qed.

Lemma deadzone_extremes_witness :
  threshold (findDeadZoneThreshold alwaysLarger (session "image/jpeg")) = 70
  /\ threshold (findDeadZoneThreshold alwaysSmaller (session "image/jpeg")) = 100.
Proof.
  assert (Hnonempty : originalSize (session "image/jpeg") <> 0) by (simpl; lia).
  split.
  - apply (proj1 (deadzone_extremes alwaysLarger (session "image/jpeg")) photo
             {| type := "image/jpeg"; size := 50000 |} eq_refl eq_refl Hnonempty).
    intros quality _; reflexivity.
  - apply (proj1 (deadzone_extremes alwaysSmaller (session "image/jpeg")) photo
             {| type := "image/jpeg"; size := 50000 |} eq_refl eq_refl Hnonempty).
    reflexivity.
Defined.

(** Every candidate is larger than the 50,000-byte reference, yet the result
    is not 70 + 1. *)
Lemma deadzone_all_exceed_not_71 :
  (forall quality, In quality testQualities ->
     exceeds (originalSize (session "image/jpeg"))
             (alwaysLarger (probeCanvas (session "image/jpeg") photo
                                        {| type := "image/jpeg"; size := 50000 |})
                           quality) = true)
  /\ threshold (findDeadZoneThreshold alwaysLarger (session "image/jpeg")) <> 70 + 1.
Proof.
  assert (Hall : forall quality, In quality testQualities ->
     exceeds (originalSize (session "image/jpeg"))
             (alwaysLarger (probeCanvas (session "image/jpeg") photo
                                        {| type := "image/jpeg"; size := 50000 |})
                           quality) = true) by (intros quality _; reflexivity).
  split; [exact Hall |].
  assert (Hnonempty : originalSize (session "image/jpeg") <> 0) by (simpl; lia).
  rewrite (findDeadZoneThreshold_all_exceed alwaysLarger (session "image/jpeg") photo
             {| type := "image/jpeg"; size := 50000 |} eq_refl eq_refl Hnonempty Hall).
  simpl; lia.
Qed.

(** ** Flattening before encoding *)

Section Flattening.

Variable toBlob : Canvas -> Z -> BlobResult.
Variables (app : Imagify) (img : Image).
Hypothesis loaded : originalImage app = Some img.

(** Away from the quality-100 shortcut, [compressImage] makes exactly one
    encoder call, on the canvas prepared at the target size. *)
Lemma compressImage_encodes :
  currentQuality app <> 100 ->
  let sz := calculateCompressionSize app in
  let flatten := match originalFile app with
                 | Some f => isPng f
                 | None => false
                 end in
  let tempCanvas := prepareCanvas flatten img (width sz) (height sz) in
  compressImage toBlob app
  = Encoded {| encodedCanvas := tempCanvas; encodedQuality := currentQuality app |}
            (toBlob tempCanvas (currentQuality app)).
Proof.
  intros Hq; simpl; unfold compressImage; rewrite loaded.
  rewrite (target_nonzero app img loaded).
  apply Z.eqb_neq in Hq; rewrite Hq; reflexivity.
Qed.

Lemma prepareCanvas_flattened (w h : Z) (quality : Z) :
  flattenedFirst {| encodedCanvas := prepareCanvas true img w h;
                    encodedQuality := quality |}.
Proof. exists img, w, h; reflexivity. Qed.

Lemma compressImage_canvas (call : EncodeCall) (result : BlobResult) :
  compressImage toBlob app = Encoded call result ->
  let sz := calculateCompressionSize app in
  let flatten := match originalFile app with
                 | Some f => isPng f
                 | None => false
                 end in
  call = {| encodedCanvas := prepareCanvas flatten img (width sz) (height sz);
            encodedQuality := currentQuality app |}.
Proof.
  unfold compressImage; rewrite loaded; simpl.
  destruct (_ || _); [discriminate |].
  destruct (_ && _); [discriminate |].
  intros H; injection H as <- _; reflexivity.
Qed.

Lemma findDeadZoneThreshold_canvas (file : File) (call : EncodeCall) :
  originalFile app = Some file ->
  In call (probes (findDeadZoneThreshold toBlob app)) ->
  encodedCanvas call = probeCanvas app img file.
Proof.
  intros Hfile; unfold findDeadZoneThreshold; rewrite loaded, Hfile.
  destruct (originalSize app =? 0); [intros [] |].
  destruct (_ || _); [intros [] |].
  fold (probeCanvas app img file).
  generalize (probeCanvas app img file) as c, 101 as t0.
  intros c; induction testQualities as [| x rest IH]; intros t0; simpl; [intros [] |].
  destruct (toBlob c x) as [blobSize | |]; simpl;
    try (intros [<- | []]; reflexivity).
  destruct (originalSize app <? blobSize); simpl;
    [| intros [<- | []]; reflexivity].
  specialize (IH x).
  destruct (scanQualities toBlob c (originalSize app) rest x) as [t calls]; simpl in *.
  intros [<- | Hin]; [reflexivity | apply IH, Hin].
Qed.

End Flattening.

(** Claim C8, as the code has it. When the selected file is a PNG, the canvas of
    every encoder call, in [compressImage] and in every probe of the
    dead-zone search, was filled with opaque white before the image was drawn
    on it, whatever the image's pixels are. *)
Theorem png_flattened_before_encoding
        (toBlob : Canvas -> Z -> BlobResult)
        (app : Imagify) (img : Image) (file : File)
        (Hloaded : originalImage app = Some img)
        (Hselected : originalFile app = Some file)
        (Hpng : type file = "image/png"%string) :
  (forall call result,
      compressImage toBlob app = Encoded call result -> flattenedFirst call)
  /\ (forall call,
      In call (probes (findDeadZoneThreshold toBlob app)) -> flattenedFirst call).
Proof.
  assert (Hflat : isPng file = true) by (unfold isPng; rewrite Hpng; reflexivity).
  split.
  - intros call result Hcall.
    rewrite (compressImage_canvas toBlob app img Hloaded call result Hcall).
    rewrite Hselected, Hflat; apply prepareCanvas_flattened.
  - intros call Hin.
    pose proof (findDeadZoneThreshold_canvas toBlob app img Hloaded file call
                  Hselected Hin) as Hc.
    destruct call as [c quality]; simpl in Hc; subst c.
    unfold probeCanvas; rewrite Hflat; apply prepareCanvas_flattened.
Qed.

Lemma png_flattened_before_encoding_witness :
  (exists call result,
      compressImage dipAt80 (session "image/png") = Encoded call result
      /\ flattenedFirst call)
  /\ (forall call,
      In call (probes (findDeadZoneThreshold dipAt80 (session "image/png"))) ->
      flattenedFirst call).
Proof.
  pose proof (png_flattened_before_encoding dipAt80 (session "image/png") photo
                {| type := "image/png"; size := 50000 |} eq_refl eq_refl eq_refl)
    as [Hc Hp].
  split; [| exact Hp].
  assert (Hq : currentQuality (session "image/png") <> 100) by (simpl; lia).
  pose proof (compressImage_encodes dipAt80 (session "image/png") photo eq_refl Hq) as He.
  cbv zeta in He.
  eexists; eexists; split; [exact He |].
  apply (Hc _ _ He).
Defined.

(** A WebP file can carry transparency, yet its canvas is encoded with the
    image drawn straight onto it: no white fill comes first. *)
Lemma webp_not_flattened :
  supportsAlpha "image/webp" = true
  /\ exists call result,
       compressImage dipAt80 (session "image/webp") = Encoded call result
       /\ drawn (encodedCanvas call) = [DrawImage photo 0 0 800 600]
       /\ ~ flattenedFirst call.
Proof.
  split; [reflexivity |].
  assert (Hq : currentQuality (session "image/webp") <> 100) by (simpl; lia).
  pose proof (compressImage_encodes dipAt80 (session "image/webp") photo eq_refl Hq) as He.
  cbv zeta in He.
  rewrite (calculateCompressionSize_id 800 600 ltac:(lia) ltac:(lia)
             (session "image/webp") [] eq_refl eq_refl eq_refl) in He.
  simpl in He.
  eexists; eexists; split; [exact He |].
  split; [reflexivity |].
  intros (img & w & h & Hd); discriminate Hd.
Qed.

(** ** Pixel buffers *)

Lemma pixelOffsets_cons4 (n : nat) :
  pixelOffsets (4 + n) = 0%nat :: map (fun i => (4 + i)%nat) (pixelOffsets n).
Proof.
  unfold pixelOffsets.
  replace ((4 + n + 3) / 4)%nat with (S ((n + 3) / 4)).
  - generalize ((n + 3) / 4)%nat; intros m.
    cbn [seq map]; rewrite <- seq_shift, !map_map.
    f_equal; apply map_ext; intros k; lia.
  - replace (4 + n + 3)%nat with ((n + 3) + 1 * 4)%nat by lia.
    rewrite Nat.div_add by discriminate; lia.
Qed.

Lemma pixelOffsets_exact (n : nat) :
  pixelOffsets (4 * n) = map (fun k => (4 * k)%nat) (seq 0 n).
Proof.
  unfold pixelOffsets.
  replace ((4 * n + 3) / 4)%nat with n; [reflexivity |].
  apply (Nat.div_unique (4 * n + 3) 4 n 3); lia.
Qed.

Lemma wellFormed_length (img : ImageData.t) :
  wellFormed img = true ->
  length (ImageData.data img) = (4 * (ImageData.width img * ImageData.height img))%nat.
Proof.
  unfold wellFormed; intros H; apply andb_true_iff in H; destruct H as [H _].
  apply Nat.eqb_eq in H; lia.
Qed.

Lemma wellFormed_byte (img : ImageData.t) (i : nat) :
  wellFormed img = true -> 0 <= byteAt (ImageData.data img) i <= 255.
Proof.
  unfold wellFormed; intros H; apply andb_true_iff in H; destruct H as [_ H].
  rewrite forallb_forall in H; unfold byteAt.
  destruct (nth_in_or_default i (ImageData.data img) 0) as [Hin | ->]; [| lia].
  apply H in Hin; unfold isByte in Hin; lia.
Qed.

(** ** PSNR *)

Section PSNR.

Variables d1 d2 : list Z.

(** The loop adds to its accumulator: it can be started from zero. *)
Lemma psnr_fold_from (offsets : list nat) :
  forall acc : Z * Z,
    fold_left (psnrStep d1 d2) offsets acc
    = (fst acc + fst (fold_left (psnrStep d1 d2) offsets (0, 0)),
       snd acc + snd (fold_left (psnrStep d1 d2) offsets (0, 0))).
Proof.
  induction offsets as [| i rest IH]; intros [m c]; cbn [fold_left fst snd].
  - f_equal; lia.
  - rewrite (IH (psnrStep d1 d2 (m, c) i)), (IH (psnrStep d1 d2 (0, 0) i)).
    unfold psnrStep; destruct (byteAt d1 (i + 3) <? 255); cbn [fst snd];
      f_equal; lia.
Qed.

(** The loop as sums over the pixels it does not skip. *)
Lemma psnr_fold_sums (offsets : list nat) :
  let counted := filter (fun i => negb (byteAt d1 (i + 3) <? 255)) offsets in
  fold_left (psnrStep d1 d2) offsets (0, 0)
  = (sumZ (map (squaredError d1 d2) counted), Z.of_nat (length counted)).
Proof.
  induction offsets as [| i rest IH]; cbn [fold_left filter]; [reflexivity |].
  rewrite psnr_fold_from; cbv zeta in IH; rewrite IH.
  unfold psnrStep.
  destruct (byteAt d1 (i + 3) <? 255); cbn [negb map length sumZ fold_right fst snd].
  - f_equal; lia.
  - fold (sumZ (map (squaredError d1 d2)
                    (filter (fun i => negb (byteAt d1 (i + 3) <? 255)) rest))).
    unfold squaredError at 1; f_equal; lia.
Qed.

Lemma sumZ_squaredError_nonneg (offsets : list nat) :
  0 <= sumZ (map (squaredError d1 d2) offsets).
Proof.
  induction offsets as [| i rest IH]; cbn [map sumZ fold_right]; [lia |].
  fold (sumZ (map (squaredError d1 d2) rest)).
  unfold squaredError at 1; nia.
Qed.

End PSNR.

Lemma psnrSums_included (a b : ImageData.t) :
  wellFormed a = true ->
  psnrSums (ImageData.data a) (ImageData.data b)
  = (sumZ (map (squaredError (ImageData.data a) (ImageData.data b))
               (includedOffsets (ImageData.data a))),
     Z.of_nat (length (includedOffsets (ImageData.data a)))).
Proof.
  intros Hwf; unfold psnrSums, includedOffsets.
  rewrite psnr_fold_sums; cbv zeta.
  rewrite (filter_ext (fun i => negb (byteAt (ImageData.data a) (i + 3) <? 255))
                      (fun i => byteAt (ImageData.data a) (i + 3) =? 255));
    [reflexivity |].
  intros i; pose proof (wellFormed_byte a (i + 3) Hwf).
  destruct (Z.ltb_spec (byteAt (ImageData.data a) (i + 3)) 255);
    destruct (Z.eqb_spec (byteAt (ImageData.data a) (i + 3)) 255); simpl; lia.
Qed.

Lemma psnrSums_self (d : list Z) : fst (psnrSums d d) = 0.
Proof.
  unfold psnrSums; rewrite psnr_fold_sums; cbn [fst].
  induction (filter _ _) as [| i rest IH]; cbn [map sumZ fold_right]; [reflexivity |].
  fold (sumZ (map (squaredError d d) rest)); rewrite IH.
  unfold squaredError; rewrite !Z.sub_diag; reflexivity.
Qed.

Lemma psnrSums_cons4 (x0 x1 x2 x3 y0 y1 y2 y3 : Z) (d1 d2 : list Z) :
  psnrSums (x0 :: x1 :: x2 :: x3 :: d1) (y0 :: y1 :: y2 :: y3 :: d2)
  = (fst (psnrStep [x0; x1; x2; x3] [y0; y1; y2; y3] (0, 0) 0) + fst (psnrSums d1 d2),
     snd (psnrStep [x0; x1; x2; x3] [y0; y1; y2; y3] (0, 0) 0) + snd (psnrSums d1 d2)).
Proof.
  unfold psnrSums.
  change (length (x0 :: x1 :: x2 :: x3 :: d1)) with (4 + length d1)%nat.
  rewrite pixelOffsets_cons4; simpl fold_left.
  rewrite psnr_fold_from.
  assert (Hshift : forall offsets acc,
    fold_left (psnrStep (x0 :: x1 :: x2 :: x3 :: d1) (y0 :: y1 :: y2 :: y3 :: d2))
              (map (fun i => (4 + i)%nat) offsets) acc
    = fold_left (psnrStep d1 d2) offsets acc).
  { induction offsets as [| i rest IH]; intros acc; simpl; [reflexivity |].
    rewrite <- IH; reflexivity. }
  rewrite Hshift; reflexivity.
Qed.

Lemma psnrSums_opaqueBlack (n : nat) :
  psnrSums (opaqueBlack n) (opaqueBlack n) = (0, Z.of_nat n).
Proof.
  induction n as [| n IH]; [reflexivity |].
  change (opaqueBlack (S n)) with (0 :: 0 :: 0 :: 255 :: opaqueBlack n).
  rewrite psnrSums_cons4, IH; simpl fst; simpl snd.
  f_equal; lia.
Qed.

(** *** Decibels *)

Lemma ln_10_pos : (0 < ln 10)%R.
Proof. rewrite <- ln_1; apply ln_increasing; lra. Qed.

Lemma Math_log10_pow (n : nat) : Math_log10 (10 ^ n) = INR n.
Proof. unfold Math_log10; apply Rlog_pow; lra. Qed.

Lemma Math_log10_lt (x y : R) : (0 < x)%R -> (x < y)%R -> (Math_log10 x < Math_log10 y)%R.
Proof.
  intros Hx Hxy; unfold Math_log10, Rlog.
  apply Rmult_lt_compat_r; [apply Rinv_0_lt_compat, ln_10_pos |].
  apply ln_increasing; assumption.
Qed.

Lemma Math_log10_le (x y : R) : (0 < x)%R -> (x <= y)%R -> (Math_log10 x <= Math_log10 y)%R.
Proof.
  intros Hx [Hlt | ->]; [left; apply Math_log10_lt; assumption | right; reflexivity].
Qed.

Lemma ten_pow_10 : (10 ^ 10 = 10000000000)%R.
Proof. simpl; lra. Qed.

Lemma ten_pow_15 : (10 ^ 15 = 1000000000000000)%R.
Proof. simpl; lra. Qed.

Section Decibels.

Variable sums : Z * Z.
Hypothesis error_nonneg : 0 <= fst sums.
Hypothesis count_nonneg : 0 <= snd sums.

Let mse : R := (IZR (fst sums) / IZR (snd sums * 3))%R.

Lemma psnrOfSums_cases :
  (snd sums = 0 /\ psnrOfSums sums = 100%R)
  \/ (snd sums <> 0 /\ (mse < 1e-10)%R /\ psnrOfSums sums = 100%R)
  \/ (snd sums <> 0 /\ (1e-10 <= mse)%R
      /\ psnrOfSums sums = Rmax 0 (10 * Math_log10 (255 ^ 2 / mse))).
Proof.
  unfold psnrOfSums; fold mse.
  destruct (Z.eqb_spec (snd sums) 0) as [H0 | H0]; [left; auto |].
  right; destruct (Rlt_dec mse 1e-10) as [Hlt | Hge]; [left; auto |].
  right; repeat split; auto; lra.
Qed.

Lemma psnrOfSums_nonneg : (0 <= psnrOfSums sums)%R.
Proof.
  destruct psnrOfSums_cases as [[_ ->] | [(_ & _ & ->) | (_ & _ & ->)]];
    [lra | lra | apply Rmax_l].
Qed.

Lemma divisor_pos : snd sums <> 0 -> (0 < IZR (snd sums * 3))%R.
Proof. intros H; apply IZR_lt; lia. Qed.

Lemma psnrOfSums_lt_150 : (psnrOfSums sums < 150)%R.
Proof.
  destruct psnrOfSums_cases as [[_ ->] | [(_ & _ & ->) | (Hn & Hmse & ->)]];
    [lra | lra |].
  apply Rmax_lub_lt; [lra |].
  assert (Hlog : (Math_log10 (255 ^ 2 / mse) < INR 15)%R).
  { rewrite <- Math_log10_pow; apply Math_log10_lt.
    - apply Rdiv_lt_0_compat; lra.
    - rewrite ten_pow_15.
      apply Rmult_lt_reg_r with mse; [lra |].
      unfold Rdiv; rewrite Rmult_assoc, Rinv_l by lra; lra. }
  simpl INR in Hlog; lra.
Qed.

Lemma psnrOfSums_le_100 : snd sums <= 51262 -> (psnrOfSums sums <= 100)%R.
Proof.
  intros Hsmall.
  destruct psnrOfSums_cases as [[_ ->] | [(_ & _ & ->) | (Hn & Hmse & ->)]];
    [lra | lra |].
  apply Rmax_lub; [lra |].
  pose proof (divisor_pos Hn) as Hd.
  assert (Herr : 1 <= fst sums).
  { destruct (Z.eq_dec (fst sums) 0) as [H0 | H0]; [| lia].
    exfalso; unfold mse in Hmse; rewrite H0 in Hmse.
    unfold Rdiv in Hmse; rewrite Rmult_0_l in Hmse; lra. }
  assert (Hbig : (IZR (snd sums * 3) <= 153786)%R) by (apply IZR_le; lia).
  assert (Hone : (1 <= IZR (fst sums))%R) by (apply IZR_le; lia).
  assert (Hlog : (Math_log10 (255 ^ 2 / mse) <= INR 10)%R).
  { rewrite <- Math_log10_pow; apply Math_log10_le.
    - apply Rdiv_lt_0_compat; lra.
    - rewrite ten_pow_10.
      apply Rmult_le_reg_r with mse; [lra |].
      unfold Rdiv at 1; rewrite Rmult_assoc, Rinv_l by lra.
      apply Rmult_le_reg_r with (IZR (snd sums * 3)); [lra |].
      unfold mse, Rdiv; rewrite !Rmult_assoc, Rinv_l by lra.
      nra. }
  simpl INR in Hlog; lra.
Qed.

End Decibels.

Lemma psnrSums_nonneg (a b : ImageData.t) :
  wellFormed a = true ->
  0 <= fst (psnrSums (ImageData.data a) (ImageData.data b))
  /\ 0 <= snd (psnrSums (ImageData.data a) (ImageData.data b)).
Proof.
  intros Hwf; rewrite (psnrSums_included a b Hwf); simpl fst; simpl snd.
  split; [apply sumZ_squaredError_nonneg | lia].
Qed.

Lemma calculatePSNR_self (a : ImageData.t) : calculatePSNR a a = 100%R.
Proof.
  unfold calculatePSNR, psnrOfSums; rewrite psnrSums_self.
  destruct (_ =? 0); [reflexivity |].
  destruct (Rlt_dec _ _) as [_ | H]; [reflexivity |].
  exfalso; apply H; unfold Rdiv at 1; rewrite Rmult_0_l; lra.
Qed.

(** Claim C3, as the code has it. For equal-sized bitmaps the PSNR is a
    non-negative real below 150 dB; it is at most 100 whenever no more than
    51262 pixels are counted; and the logarithm is only taken of a positive
    quotient.  The value 100 is what a perfect or empty comparison returns,
    not a cap. *)
Theorem psnr_range
        (a b : ImageData.t)
        (Hwfa : wellFormed a = true)
        (Hwfb : wellFormed b = true)
        (Hsize : sameSize a b = true) :
  let counted := Z.of_nat (length (includedOffsets (ImageData.data a))) in
  let mse := meanSquaredError (ImageData.data a) (ImageData.data b) in
  (0 <= calculatePSNR a b < 150)%R
  /\ (counted <= 51262 -> (calculatePSNR a b <= 100)%R)
  /\ (counted <> 0 -> ~ (mse < 1e-10)%R -> (0 < 255 ^ 2 / mse)%R).
Proof.
  destruct (psnrSums_nonneg a b Hwfa) as [Herr Hcount].
  cbv zeta; unfold calculatePSNR; repeat split.
  - apply psnrOfSums_nonneg.
  - apply psnrOfSums_lt_150; assumption.
  - intros Hsmall; apply psnrOfSums_le_100; try assumption.
    rewrite (psnrSums_included a b Hwfa); exact Hsmall.
  - intros Hn Hmse; apply Rdiv_lt_0_compat; [apply pow_lt; lra | lra].
Qed.

Lemma psnr_range_witness :
  (0 <= calculatePSNR (onePixel 10) (onePixel 13) <= 100)%R.
Proof.
  destruct (psnr_range (onePixel 10) (onePixel 13) eq_refl eq_refl eq_refl)
    as ([Hlo _] & Hhi & _).
  split; [exact Hlo | apply Hhi; vm_compute; discriminate].
Defined.

(** A 300x200 opaque black image against a copy whose first red byte is 1:
    one squared unit of error over 60,000 counted pixels gives more than
    100 dB. *)
Lemma psnr_above_100 :
  wellFormed (blackImage 300 200) = true
  /\ wellFormed (nearlyBlackImage 300 200) = true
  /\ sameSize (blackImage 300 200) (nearlyBlackImage 300 200) = true
  /\ ~ (calculatePSNR (blackImage 300 200) (nearlyBlackImage 300 200) <= 100)%R.
Proof.
  split; [vm_compute; reflexivity |].
  split; [vm_compute; reflexivity |].
  split; [reflexivity |].
  assert (Hsums : psnrSums (ImageData.data (blackImage 300 200))
                           (ImageData.data (nearlyBlackImage 300 200))
                  = (1, 60000)).
  { unfold blackImage, nearlyBlackImage, ImageData.data.
    set (n := (300 * 200 - 1)%nat).
    replace (300 * 200)%nat with (S n) by (subst n; lia).
    change (opaqueBlack (S n)) with (0 :: 0 :: 0 :: 255 :: opaqueBlack n).
    change ([1; 0; 0; 255] ++ opaqueBlack n) with (1 :: 0 :: 0 :: 255 :: opaqueBlack n).
    rewrite psnrSums_cons4, psnrSums_opaqueBlack.
    cbn [psnrStep byteAt nth Nat.add Z.ltb Z.compare Pos.compare Pos.compare_cont fst snd].
    f_equal; subst n; lia. }
  unfold calculatePSNR; rewrite Hsums; unfold psnrOfSums.
  change (snd (1, 60000) =? 0) with false; cbv iota.
  change (fst (1, 60000)) with 1; change (snd (1, 60000) * 3) with 180000.
  destruct (Rlt_dec (1 / 180000) 1e-10) as [Hlt | _]; [lra |].
  intros Hle.
  assert (Hlog : (INR 10 < Math_log10 (255 ^ 2 / (1 / 180000)))%R).
  { rewrite <- Math_log10_pow; apply Math_log10_lt; [apply pow_lt; lra |].
    rewrite ten_pow_10.
    replace (255 ^ 2 / (1 / 180000))%R with 11704500000%R by (field_simplify; lra).
    lra. }
  simpl INR in Hlog.
  pose proof (Rmax_r 0 (10 * Math_log10 (255 ^ 2 / (1 / 180000)))).
  lra.
Qed.

(** The pixels the loop counts, by pixel number: those among all
    [width * height] pixels whose reference alpha is 255. *)
Lemma includedOffsets_pixels (a : ImageData.t) :
  wellFormed a = true ->
  includedOffsets (ImageData.data a)
  = map (fun k => (4 * k)%nat)
        (filter (fun k => byteAt (ImageData.data a) (4 * k + 3) =? 255)
                (seq 0 (ImageData.width a * ImageData.height a))).
Proof.
  intros Hwf; unfold includedOffsets.
  rewrite (wellFormed_length a Hwf), pixelOffsets_exact.
  apply filter_map_swap.
Qed.

(** Claim C4. The loop of [calculatePSNR] visits every one of the
    [width * height] pixels; it sums the squared R, G, B differences of
    exactly those whose reference alpha is 255 and counts them, the others
    adding nothing; the result is 100 when none is counted or when the sum
    divided by three times the count is below 1e-10, and
    [max(0, 10 log10(255^2 / MSE))] otherwise; so the PSNR of a bitmap
    against itself is 100. *)
Theorem psnr_definition
        (a b : ImageData.t)
        (Hwfa : wellFormed a = true)
        (Hwfb : wellFormed b = true)
        (Hsize : sameSize a b = true) :
  let d1 := ImageData.data a in
  let d2 := ImageData.data b in
  let counted :=
    filter (fun k => byteAt d1 (4 * k + 3) =? 255)
           (seq 0 (ImageData.width a * ImageData.height a)) in
  let squared (k : nat) :=
    (byteAt d1 (4 * k) - byteAt d2 (4 * k)) ^ 2
    + (byteAt d1 (4 * k + 1) - byteAt d2 (4 * k + 1)) ^ 2
    + (byteAt d1 (4 * k + 2) - byteAt d2 (4 * k + 2)) ^ 2 in
  let mse :=
    (IZR (sumZ (map squared counted)) / IZR (Z.of_nat (length counted) * 3))%R in
  psnrSums d1 d2 = (sumZ (map squared counted), Z.of_nat (length counted))
  /\ (counted = [] -> calculatePSNR a b = 100%R)
  /\ (counted <> [] -> (mse < 1e-10)%R -> calculatePSNR a b = 100%R)
  /\ (counted <> [] -> ~ (mse < 1e-10)%R ->
      calculatePSNR a b = Rmax 0 (10 * Math_log10 (255 ^ 2 / mse)))
  /\ calculatePSNR a a = 100%R.
Proof.
  cbv zeta.
  assert (Hsums :
    psnrSums (ImageData.data a) (ImageData.data b)
    = (sumZ (map (fun k : nat =>
                    (byteAt (ImageData.data a) (4 * k)
                     - byteAt (ImageData.data b) (4 * k)) ^ 2
                    + (byteAt (ImageData.data a) (4 * k + 1)
                       - byteAt (ImageData.data b) (4 * k + 1)) ^ 2
                    + (byteAt (ImageData.data a) (4 * k + 2)
                       - byteAt (ImageData.data b) (4 * k + 2)) ^ 2)
                 (filter (fun k => byteAt (ImageData.data a) (4 * k + 3) =? 255)
                         (seq 0 (ImageData.width a * ImageData.height a)))),
       Z.of_nat (length (filter (fun k => byteAt (ImageData.data a) (4 * k + 3) =? 255)
                                (seq 0 (ImageData.width a * ImageData.height a)))))).
  { rewrite (psnrSums_included a b Hwfa), (includedOffsets_pixels a Hwfa).
    rewrite map_map, length_map; reflexivity. }
  split; [exact Hsums |].
  unfold calculatePSNR, psnrOfSums.
  rewrite Hsums; cbn [fst snd].
  generalize (filter (fun k => byteAt (ImageData.data a) (4 * k + 3) =? 255)
                     (seq 0 (ImageData.width a * ImageData.height a))).
  intros counted; repeat split.
  - intros ->; reflexivity.
  - intros Hne Hlt.
    destruct (_ =? 0); [reflexivity |].
    destruct (Rlt_dec _ _) as [_ | H]; [reflexivity | contradiction].
  - intros Hne Hge.
    destruct (Z.eqb_spec (Z.of_nat (length counted)) 0) as [H0 | _].
    + destruct counted; [contradiction | discriminate].
    + destruct (Rlt_dec _ _) as [H | _]; [contradiction | reflexivity].
  - fold (psnrOfSums (psnrSums (ImageData.data a) (ImageData.data a))).
    apply calculatePSNR_self.
Qed.

(** Two pixels, the second of which differs by three levels of red: both
    are counted, and the squared error is 9. *)
Lemma psnr_definition_witness :
  psnrSums (ImageData.data (pixelPair 10)) (ImageData.data (pixelPair 13)) = (9, 2)
  /\ calculatePSNR (pixelPair 10) (pixelPair 10) = 100%R.
Proof.
  destruct (psnr_definition (pixelPair 10) (pixelPair 13) eq_refl eq_refl eq_refl)
    as (Hsums & _ & _ & _ & Hself).
  split; [exact Hsums | exact Hself].
Defined.

(** ** SSIM *)

Lemma C1_pos : (0 < C1)%R.
Proof. unfold C1, K1, L; apply pow_lt; lra. Qed.

Lemma C2_pos : (0 < C2)%R.
Proof. unfold C2, K2, L; apply pow_lt; lra. Qed.

Lemma clamp01_range (x : R) : (0 <= clamp01 x <= 1)%R.
Proof.
  unfold clamp01; split; [apply Rmax_l |].
  apply Rmax_lub; [lra | apply Rmin_l].
Qed.

Lemma clamp01_1 : clamp01 1 = 1%R.
Proof.
  unfold clamp01; rewrite Rmin_left by lra; apply Rmax_right; lra.
Qed.

(** *** The outer loops as a sum over the contributing windows *)

Section SsimLoop.

(** The loop is read for an arbitrary way [sumsAt] of obtaining the sums of
    the window at a corner. *)
Variable sumsAt : nat * nat -> WindowSums.

Let step (acc : R * Z) (corner : nat * nat) : R * Z :=
  if skipped (sumsAt corner) then acc
  else ((fst acc + windowSsim (sumsAt corner))%R, snd acc + 1).

Let contributing (corners : list (nat * nat)) : list WindowSums :=
  filter (fun s => negb (skipped s)) (map sumsAt corners).

Lemma ssim_fold (corners : list (nat * nat)) :
  forall acc : R * Z,
    fold_left step corners acc
    = ((fst acc + sumR (map windowSsim (contributing corners)))%R,
       snd acc + Z.of_nat (length (contributing corners))).
Proof.
  induction corners as [| corner rest IH]; intros [t c]; cbn [fold_left].
  - unfold contributing; cbn [map filter length sumR fold_right fst snd].
    f_equal; [lra | lia].
  - rewrite IH; unfold step, contributing; cbn [map filter].
    destruct (skipped (sumsAt corner)); cbn [negb fst snd]; [reflexivity |].
    cbn [map length sumR fold_right].
    f_equal; [unfold sumR; lra | lia].
Qed.

End SsimLoop.

Lemma ssimTotals_contributing (d1 d2 : list Z) (width height : nat) :
  ssimTotals d1 d2 width height
  = (sumR (map windowSsim (contributingWindows d1 d2 width height)),
     Z.of_nat (length (contributingWindows d1 d2 width height))).
Proof.
  unfold ssimTotals, contributingWindows.
  pose proof (ssim_fold (fun corner => windowSums d1 d2 width (fst corner) (snd corner))
                        (windowCorners width height) (0%R, 0)) as H.
  cbn [fst snd] in H; rewrite Rplus_0_l in H.
  exact H.
Qed.

Lemma windowStarts_small (n : nat) : (n < WINDOW_SIZE)%nat -> windowStarts n = [].
Proof.
  intros H; unfold windowStarts; rewrite Nat.div_small by exact H; reflexivity.
Qed.

Lemma windowCorners_small (width height : nat) :
  (width < WINDOW_SIZE)%nat \/ (height < WINDOW_SIZE)%nat ->
  windowCorners width height = [].
Proof.
  unfold windowCorners; intros [H | H]; rewrite (windowStarts_small _ H).
  - induction (windowStarts height); [reflexivity | assumption].
  - reflexivity.
Qed.

(** [calculateSSIM] in closed form. *)
Lemma calculateSSIM_mean (a b : ImageData.t) :
  calculateSSIM a b
  = match contributingWindows (ImageData.data a) (ImageData.data b)
                              (ImageData.width a) (ImageData.height a) with
    | [] => 1%R
    | windows => clamp01 (meanSsim windows)
    end.
Proof.
  unfold calculateSSIM.
  destruct ((ImageData.width a <? WINDOW_SIZE)%nat
            || (ImageData.height a <? WINDOW_SIZE)%nat) eqn:Hsmall.
  - unfold contributingWindows; rewrite windowCorners_small; [reflexivity |].
    apply orb_true_iff in Hsmall.
    destruct Hsmall as [H | H]; apply Nat.ltb_lt in H; auto.
  - rewrite ssimTotals_contributing; cbn [fst snd].
    destruct (contributingWindows _ _ _ _) as [| s rest]; [reflexivity |].
    replace (0 <? Z.of_nat (length (s :: rest))) with true
      by (symmetry; apply Z.ltb_lt; cbn [length]; lia).
    reflexivity.
Qed.

Lemma calculateSSIM_range (a b : ImageData.t) : (0 <= calculateSSIM a b <= 1)%R.
Proof.
  rewrite calculateSSIM_mean.
  destruct (contributingWindows _ _ _ _); [lra | apply clamp01_range].
Qed.

(** *** The inner loops as sums over the counted pixels *)

Section WindowFold.

Variables d1 d2 : list Z.

Let counted (index : nat) : bool := negb (byteAt d1 (index + 3) =? 0).

Lemma window_fold (indices : list nat) :
  forall s : WindowSums,
    fold_left (windowStep d1 d2) indices s
    = {| sumX := sumX s + sumR (map (lum d1) (filter counted indices));
         sumY := sumY s + sumR (map (lum d2) (filter counted indices));
         sumX2 := sumX2 s + sumR (map (fun p => (lum d1 p ^ 2)%R) (filter counted indices));
         sumY2 := sumY2 s + sumR (map (fun p => (lum d2 p ^ 2)%R) (filter counted indices));
         sumXY := sumXY s
                  + sumR (map (fun p => (lum d1 p * lum d2 p)%R) (filter counted indices));
         numPixels := numPixels s + Z.of_nat (length (filter counted indices));
         windowHasOpaquePixel :=
           windowHasOpaquePixel s || negb (length (filter counted indices) =? 0)%nat |}.
Proof.
  induction indices as [| index rest IH]; intros s.
  - destruct s as [x y x2 y2 xy n opaque]; cbn [fold_left filter map sumR fold_right length Nat.eqb negb
                     sumX sumY sumX2 sumY2 sumXY numPixels windowHasOpaquePixel].
    f_equal; try lra; try lia.
    symmetry; apply orb_false_r.
  - cbn [fold_left filter]; rewrite IH; unfold windowStep.
    change (counted index) with (negb (byteAt d1 (index + 3) =? 0)).
    destruct (byteAt d1 (index + 3) =? 0); cbn [negb]; [reflexivity |].
    cbn [sumX sumY sumX2 sumY2 sumXY numPixels windowHasOpaquePixel
         map sumR fold_right length Nat.eqb negb orb].
    f_equal; try (unfold sumR; lra); lia.
Qed.

Lemma windowSums_closed (width x y : nat) :
  let pixels := filter counted (windowIndices width x y) in
  windowSums d1 d2 width x y
  = {| sumX := sumR (map (lum d1) pixels);
       sumY := sumR (map (lum d2) pixels);
       sumX2 := sumR (map (fun p => (lum d1 p ^ 2)%R) pixels);
       sumY2 := sumR (map (fun p => (lum d2 p ^ 2)%R) pixels);
       sumXY := sumR (map (fun p => (lum d1 p * lum d2 p)%R) pixels);
       numPixels := Z.of_nat (length pixels);
       windowHasOpaquePixel := negb (length pixels =? 0)%nat |}.
Proof.
  cbv zeta; unfold windowSums; rewrite window_fold.
  cbn [emptyWindow sumX sumY sumX2 sumY2 sumXY numPixels windowHasOpaquePixel orb].
  f_equal; try lra; lia.
Qed.

End WindowFold.

Lemma flat_map_map {A B C : Type} (g : A -> B) (f : B -> list C) (l : list A) :
  flat_map f (map g l) = flat_map (fun a => f (g a)) l.
Proof.
  induction l as [| a rest IH]; cbn [map flat_map]; [reflexivity |].
  rewrite IH; reflexivity.
Qed.

(** The corners of the full windows, row by row. *)
Lemma windowCorners_exact (width height : nat) :
  windowCorners width height
  = flat_map (fun j => map (fun i => (8 * i, 8 * j)%nat) (seq 0 (width / 8)))
             (seq 0 (height / 8)).
Proof.
  unfold windowCorners, windowStarts; rewrite flat_map_map.
  apply flat_map_ext; intros j; rewrite map_map; reflexivity.
Qed.

Lemma existsb_filter {A : Type} (p : A -> bool) (l : list A) :
  existsb p l = negb (length (filter p l) =? 0)%nat.
Proof.
  induction l as [| a rest IH]; cbn [existsb filter]; [reflexivity |].
  destruct (p a); [reflexivity | exact IH].
Qed.

Lemma existsb_same {A : Type} (p q : A -> bool) (l : list A) :
  (forall a, p a = q a) -> existsb p l = existsb q l.
Proof.
  intros Hpq; induction l as [| a rest IH]; cbn [existsb]; [reflexivity |].
  rewrite Hpq, IH; reflexivity.
Qed.

Lemma filter_nonempty {A : Type} (p : A -> bool) (l : list A) :
  existsb p l = true <-> filter p l <> [].
Proof.
  rewrite existsb_filter; destruct (filter p l); cbn [length Nat.eqb negb];
    split; intros H; try reflexivity; try discriminate; contradiction.
Qed.

Section WindowValue.

Variables d1 d2 : list Z.
Variable width : nat.

(** The pixels of the window at a corner that the inner loops count. *)
Let pixels (corner : nat * nat) : list nat :=
  filter (fun index => negb (byteAt d1 (index + 3) =? 0))
         (windowIndices width (fst corner) (snd corner)).

Let mean (f : nat -> R) (corner : nat * nat) : R :=
  (sumR (map f (pixels corner)) / IZR (Z.of_nat (length (pixels corner))))%R.

Let value (corner : nat * nat) : R :=
  let meanX := mean (lum d1) corner in
  let meanY := mean (lum d2) corner in
  let varX := Rmax 0 (mean (fun p => (lum d1 p ^ 2)%R) corner - meanX ^ 2) in
  let varY := Rmax 0 (mean (fun p => (lum d2 p ^ 2)%R) corner - meanY ^ 2) in
  let covXY := (mean (fun p => (lum d1 p * lum d2 p)%R) corner - meanX * meanY)%R in
  (((2 * meanX * meanY + C1) * (2 * covXY + C2))
   / ((meanX ^ 2 + meanY ^ 2 + C1) * (varX + varY + C2)))%R.

Lemma skipped_closed (corner : nat * nat) :
  skipped (windowSums d1 d2 width (fst corner) (snd corner))
  = (length (pixels corner) =? 0)%nat.
Proof.
  rewrite windowSums_closed; cbv zeta; unfold skipped, pixels.
  cbn [numPixels windowHasOpaquePixel].
  destruct (length _); reflexivity.
Qed.

Lemma windowSsim_closed (corner : nat * nat) :
  windowSsim (windowSums d1 d2 width (fst corner) (snd corner)) = value corner.
Proof.
  rewrite windowSums_closed; reflexivity.
Qed.

Lemma contributingWindows_closed (corners : list (nat * nat)) :
  let contributing :=
    filter (fun corner => negb (length (pixels corner) =? 0)%nat) corners in
  map windowSsim
      (filter (fun s => negb (skipped s))
              (map (fun corner => windowSums d1 d2 width (fst corner) (snd corner))
                   corners))
  = map value contributing.
Proof.
  cbv zeta; rewrite filter_map_swap, map_map.
  rewrite (filter_ext _ (fun corner => negb (length (pixels corner) =? 0)%nat))
    by (intros corner; rewrite skipped_closed; reflexivity).
  apply map_ext; intros corner; apply windowSsim_closed.
Qed.

End WindowValue.

(** The mean over the windows the outer loops keep, for any way [value] of
    writing the per-window values. *)
Lemma clamped_mean_cases (windows : list WindowSums) (A : Type)
      (contributing : list A) (value : A -> R) :
  map windowSsim windows = map value contributing ->
  match windows with
  | [] => 1%R
  | s :: rest => clamp01 (meanSsim (s :: rest))
  end
  = match contributing with
    | [] => 1%R
    | _ => Rmax 0 (Rmin 1 (sumR (map value contributing)
                           / IZR (Z.of_nat (length contributing))))
    end.
Proof.
  intros Hmap.
  assert (Hlen : length windows = length contributing).
  { rewrite <- (length_map windowSsim windows), Hmap; apply length_map. }
  destruct windows as [| s rest]; destruct contributing as [| c others];
    try discriminate Hlen; [reflexivity |].
  unfold clamp01, meanSsim; rewrite Hmap, Hlen; reflexivity.
Qed.

(** Claim C6, as the code has it.  The windows are the full 8x8 blocks, row by
    row; a window contributes when at least one of its 64 pixels has nonzero
    reference alpha, and its value is computed from the luminances of those
    pixels alone.  The result is 1 when no window contributes and otherwise
    the arithmetic mean of the values of the contributing windows clamped to
    [0, 1]; it always lies in [0, 1].  A bitmap has a contributing window
    exactly when some full window has a pixel of nonzero alpha. *)
Theorem ssim_mean_clamped
        (a b : ImageData.t)
        (Hwfa : wellFormed a = true)
        (Hwfb : wellFormed b = true)
        (Hsize : sameSize a b = true) :
  let d1 := ImageData.data a in
  let d2 := ImageData.data b in
  let width := ImageData.width a in
  let height := ImageData.height a in
  let corners :=
    flat_map (fun j => map (fun i => (8 * i, 8 * j)%nat) (seq 0 (width / 8)))
             (seq 0 (height / 8)) in
  let pixels (corner : nat * nat) :=
    filter (fun index => negb (byteAt d1 (index + 3) =? 0))
           (flat_map (fun j => map (fun i => (((snd corner + j) * width
                                               + (fst corner + i)) * 4)%nat)
                                   (seq 0 8))
                     (seq 0 8)) in
  let mean (f : nat -> R) (corner : nat * nat) :=
    (sumR (map f (pixels corner)) / IZR (Z.of_nat (length (pixels corner))))%R in
  let value (corner : nat * nat) :=
    let meanX := mean (lum d1) corner in
    let meanY := mean (lum d2) corner in
    let varX := Rmax 0 (mean (fun p => (lum d1 p ^ 2)%R) corner - meanX ^ 2) in
    let varY := Rmax 0 (mean (fun p => (lum d2 p ^ 2)%R) corner - meanY ^ 2) in
    let covXY := (mean (fun p => (lum d1 p * lum d2 p)%R) corner - meanX * meanY)%R in
    (((2 * meanX * meanY + C1) * (2 * covXY + C2))
     / ((meanX ^ 2 + meanY ^ 2 + C1) * (varX + varY + C2)))%R in
  let contributing :=
    filter (fun corner => negb (length (pixels corner) =? 0)%nat) corners in
  (contributing = [] -> calculateSSIM a b = 1%R)
  /\ (contributing <> [] ->
      calculateSSIM a b
      = Rmax 0 (Rmin 1 (sumR (map value contributing)
                        / IZR (Z.of_nat (length contributing)))))
  /\ (0 <= calculateSSIM a b <= 1)%R
  /\ (hasCountedWindow a = true <-> contributing <> []).
Proof.
  intros d1 d2 width height corners pixels mean value contributing.
  assert (Hclosed :
    calculateSSIM a b
    = match contributing with
      | [] => 1%R
      | _ => Rmax 0 (Rmin 1 (sumR (map value contributing)
                             / IZR (Z.of_nat (length contributing))))
      end).
  { rewrite calculateSSIM_mean.
    apply (clamped_mean_cases
             (contributingWindows (ImageData.data a) (ImageData.data b)
                                  (ImageData.width a) (ImageData.height a))
             (nat * nat) contributing value).
    unfold contributingWindows; fold d1 d2 width height.
    rewrite (contributingWindows_closed d1 d2 width (windowCorners width height)).
    cbv zeta; rewrite windowCorners_exact; reflexivity. }
  split; [| split; [| split]].
  - intros Hnone; rewrite Hclosed, Hnone; reflexivity.
  - intros Hsome; rewrite Hclosed.
    destruct contributing; [contradiction | reflexivity].
  - apply calculateSSIM_range.
  - unfold hasCountedWindow; fold d1 width height.
    rewrite windowCorners_exact; fold corners.
    rewrite (existsb_same _ (fun corner => negb (length (pixels corner) =? 0)%nat))
      by (intros corner; apply existsb_filter).
    apply filter_nonempty.
Qed.

(** An opaque black 8x8 bitmap against an opaque white one: one window,
    which contributes; the result lies in [0, 1]. *)
Lemma ssim_mean_clamped_witness :
  (0 <= calculateSSIM (blackImage 8 8) (whiteImage 8 8) <= 1)%R
  /\ hasCountedWindow (blackImage 8 8) = true.
Proof.
  destruct (ssim_mean_clamped (blackImage 8 8) (whiteImage 8 8)
              eq_refl eq_refl eq_refl) as (_ & _ & Hrange & _).
  split; [exact Hrange | vm_compute; reflexivity].
Defined.

(** *** A bitmap against itself, in binary64 *)

Section Rounding.

Import PrimFloat.

(** An opaque 8x8 bitmap of the colour (0, 0, 20) against itself: its one
    window contributes, the rounded variance [sumX2 / 64 - meanX ** 2] is
    negative and clamped to 0 while the equal covariance is not clamped, and
    the result is the second binary64 number below 1, printed
    0.9999999999999998. *)
Lemma ssim_self_below_1 :
  wellFormed darkBlueImage = true
  /\ hasCountedWindow darkBlueImage = true
  /\ Binary64.calculateSSIM darkBlueImage darkBlueImage = 0x1.ffffffffffffep-1%float
  /\ (Binary64.calculateSSIM darkBlueImage darkBlueImage <? 1)%float = true.
Proof. repeat split; vm_compute; reflexivity. Qed.

End Rounding.

(** *** Small images *)

Lemma windowCorners_8_8 : windowCorners 8 8 = [(0%nat, 0%nat)].
Proof. reflexivity. Qed.

Lemma meanSsim_single (s : WindowSums) : meanSsim [s] = windowSsim s.
Proof.
  unfold meanSsim; cbn [map sumR fold_right length Z.of_nat Pos.of_succ_nat].
  field.
Qed.

Lemma filter_single {A : Type} (keep : A -> bool) (x : A) :
  filter keep [x] = if keep x then [x] else [].
Proof. reflexivity. Qed.

Lemma calculateSSIM_one_window (a b : ImageData.t) :
  ImageData.width a = 8%nat -> ImageData.height a = 8%nat ->
  let s := windowSums (ImageData.data a) (ImageData.data b) 8 0 0 in
  calculateSSIM a b = if skipped s then 1%R else clamp01 (windowSsim s).
Proof.
  intros Hw Hh; cbv zeta; rewrite calculateSSIM_mean, Hw, Hh.
  unfold contributingWindows; rewrite windowCorners_8_8.
  cbn [map fst snd]; rewrite filter_single.
  generalize (windowSums (ImageData.data a) (ImageData.data b) 8 0 0); intros s.
  destruct (skipped s); cbn [negb]; [reflexivity |].
  rewrite meanSsim_single; reflexivity.
Qed.

(** A window in which every pixel is counted and has the same two
    luminances. *)
Lemma window_fold_flat (d1 d2 : list Z) (cx cy : R) (indices : list nat) :
  (forall index, In index indices ->
     byteAt d1 (index + 3) <> 0 /\ lum d1 index = cx /\ lum d2 index = cy) ->
  forall s : WindowSums,
    let n := IZR (Z.of_nat (length indices)) in
    let s' := fold_left (windowStep d1 d2) indices s in
    sumX s' = (sumX s + n * cx)%R /\ sumY s' = (sumY s + n * cy)%R
    /\ sumX2 s' = (sumX2 s + n * (cx * cx))%R /\ sumY2 s' = (sumY2 s + n * (cy * cy))%R
    /\ sumXY s' = (sumXY s + n * (cx * cy))%R
    /\ numPixels s' = numPixels s + Z.of_nat (length indices)
    /\ (indices <> [] -> windowHasOpaquePixel s' = true).
Proof.
  induction indices as [| index rest IH]; intros Hflat s.
  - cbn [fold_left length Z.of_nat]; cbv zeta.
    repeat split; try lra; try lia; intros H; contradiction.
  - destruct (Hflat index (or_introl eq_refl)) as (Ha & Hx & Hy).
    assert (Hrest : forall i, In i rest ->
              byteAt d1 (i + 3) <> 0 /\ lum d1 i = cx /\ lum d2 i = cy)
      by (intros i Hi; apply Hflat; right; exact Hi).
    specialize (IH Hrest (windowStep d1 d2 s index)).
    cbv zeta in *; cbn [fold_left].
    destruct IH as (H1 & H2 & H3 & H4 & H5 & H6 & H7).
    assert (Hstep : windowStep d1 d2 s index
                    = {| sumX := sumX s + cx; sumY := sumY s + cy;
                         sumX2 := sumX2 s + cx ^ 2; sumY2 := sumY2 s + cy ^ 2;
                         sumXY := sumXY s + cx * cy;
                         numPixels := numPixels s + 1;
                         windowHasOpaquePixel := true |}).
    { unfold windowStep; apply Z.eqb_neq in Ha; rewrite Ha, Hx, Hy; reflexivity. }
    assert (Hlen : IZR (Z.of_nat (length (index :: rest)))
                   = (IZR (Z.of_nat (length rest)) + 1)%R)
      by (cbn [length]; rewrite Nat2Z.inj_succ, succ_IZR; reflexivity).
    rewrite Hstep in H1, H2, H3, H4, H5, H6, H7 |- *.
    rewrite H1, H2, H3, H4, H5, H6, Hlen.
    cbn [sumX sumY sumX2 sumY2 sumXY numPixels].
    repeat split; try (simpl; lra); try (cbn [length]; lia).
    intros _; destruct rest as [| i rest].
    + reflexivity.
    + apply H7; discriminate.
Qed.

Lemma windowSsim_flat (s : WindowSums) (cx cy : R) :
  (0 <= cx)%R -> (0 <= cy)%R ->
  0 < numPixels s ->
  sumX s = (IZR (numPixels s) * cx)%R -> sumY s = (IZR (numPixels s) * cy)%R ->
  sumX2 s = (IZR (numPixels s) * (cx * cx))%R ->
  sumY2 s = (IZR (numPixels s) * (cy * cy))%R ->
  sumXY s = (IZR (numPixels s) * (cx * cy))%R ->
  windowSsim s = ((2 * cx * cy + C1) / (cx * cx + cy * cy + C1))%R.
Proof.
  intros Hcx Hcy Hn HX HY HX2 HY2 HXY; unfold windowSsim.
  rewrite HX, HY, HX2, HY2, HXY.
  assert (Hpos : (0 < IZR (numPixels s))%R) by (apply IZR_lt; exact Hn).
  set (n := IZR (numPixels s)) in *.
  replace (n * cx / n)%R with cx by (field; lra).
  replace (n * cy / n)%R with cy by (field; lra).
  replace (n * (cx * cx) / n - cx ^ 2)%R with 0%R by (field; lra).
  replace (n * (cy * cy) / n - cy ^ 2)%R with 0%R by (field; lra).
  replace (n * (cx * cy) / n - cx * cy)%R with 0%R by (field; lra).
  rewrite (Rmax_left 0 0) by lra.
  pose proof C1_pos; pose proof C2_pos.
  field; split; nra.
Qed.

(** Claim C5, as the code has it. A pair of bitmaps narrower or lower than 8
    pixels gets SSIM 1 and has no window to visit; an 8x8 pair has exactly
    one window and gets that window's clamped value. *)
Theorem ssim_small_image
        (a b : ImageData.t)
        (Hwfa : wellFormed a = true)
        (Hwfb : wellFormed b = true)
        (Hsize : sameSize a b = true) :
  ((ImageData.width a < 8)%nat \/ (ImageData.height a < 8)%nat ->
   calculateSSIM a b = 1%R
   /\ windowCorners (ImageData.width a) (ImageData.height a) = [])
  /\ (ImageData.width a = 8%nat -> ImageData.height a = 8%nat ->
      let s := windowSums (ImageData.data a) (ImageData.data b) 8 0 0 in
      calculateSSIM a b = if skipped s then 1%R else Rmax 0 (Rmin 1 (windowSsim s))).
Proof.
  split.
  - intros Hsmall; split; [| apply windowCorners_small; exact Hsmall].
    unfold calculateSSIM.
    replace ((ImageData.width a <? WINDOW_SIZE)%nat || (ImageData.height a <? WINDOW_SIZE)%nat)
      with true; [reflexivity |].
    symmetry; apply orb_true_iff.
    destruct Hsmall as [H | H]; [left | right]; apply Nat.ltb_lt; exact H.
  - intros Hw Hh; apply calculateSSIM_one_window; assumption.
Qed.

Lemma ssim_small_image_witness :
  calculateSSIM (blackImage 7 8) (whiteImage 7 8) = 1%R.
Proof.
  apply (ssim_small_image (blackImage 7 8) (whiteImage 7 8) eq_refl eq_refl eq_refl).
  left; simpl; lia.
Defined.

(** An opaque black 8x8 bitmap against an opaque white one: both are at most
    8 pixels wide and high, and their SSIM is not 1. *)
Lemma ssim_8x8_not_1 :
  wellFormed (blackImage 8 8) = true
  /\ wellFormed (whiteImage 8 8) = true
  /\ sameSize (blackImage 8 8) (whiteImage 8 8) = true
  /\ (ImageData.width (blackImage 8 8) <= 8)%nat
  /\ (ImageData.height (blackImage 8 8) <= 8)%nat
  /\ calculateSSIM (blackImage 8 8) (whiteImage 8 8) <> 1%R.
Proof.
  repeat (split; [reflexivity || (simpl; lia) |]).
  rewrite (calculateSSIM_one_window (blackImage 8 8) (whiteImage 8 8) eq_refl eq_refl).
  cbv zeta.
  set (d1 := ImageData.data (blackImage 8 8)).
  set (d2 := ImageData.data (whiteImage 8 8)).
  assert (Hbytes :
    forallb (fun index =>
               (byteAt d1 index =? 0) && (byteAt d1 (index + 1) =? 0)
               && (byteAt d1 (index + 2) =? 0) && (byteAt d1 (index + 3) =? 255)
               && (byteAt d2 index =? 255) && (byteAt d2 (index + 1) =? 255)
               && (byteAt d2 (index + 2) =? 255))
            (windowIndices 8 0 0) = true) by (vm_compute; reflexivity).
  rewrite forallb_forall in Hbytes.
  assert (Hflat : forall index, In index (windowIndices 8 0 0) ->
            byteAt d1 (index + 3) <> 0 /\ lum d1 index = 0%R /\ lum d2 index = 255%R).
  { intros index Hin; specialize (Hbytes index Hin).
    repeat (apply andb_true_iff in Hbytes; destruct Hbytes as [Hbytes ?]).
    repeat match goal with H : (_ =? _) = true |- _ => apply Z.eqb_eq in H end.
    unfold lum; repeat split; [lia | |].
    - rewrite Hbytes, H4, H3; lra.
    - rewrite H1, H0, H; lra. }
  assert (Hlen : length (windowIndices 8 0 0) = 64%nat) by reflexivity.
  unfold windowSums.
  revert Hflat Hlen; generalize (windowIndices 8 0 0); intros indices Hflat Hlen.
  pose proof (window_fold_flat d1 d2 0 255 indices Hflat emptyWindow) as Hs.
  cbv zeta in Hs; rewrite Hlen in Hs.
  change (Z.of_nat 64) with 64 in Hs.
  cbn [emptyWindow sumX sumY sumX2 sumY2 sumXY numPixels] in Hs.
  assert (Hne : indices <> []) by (intros ->; discriminate Hlen).
  revert Hs; generalize (fold_left (windowStep d1 d2) indices emptyWindow); intros s Hs.
  destruct Hs as (HX & HY & HX2 & HY2 & HXY & Hn & Hflag).
  specialize (Hflag Hne).
  assert (Hskip : skipped s = false).
  { unfold skipped; rewrite Hflag, Hn; reflexivity. }
  rewrite Hskip.
  assert (Hval : windowSsim s = (C1 / (255 * 255 + C1))%R).
  { change (0 + 64) with 64 in Hn.
    rewrite (windowSsim_flat s 0 255);
      rewrite ?Hn, ?HX, ?HY, ?HX2, ?HY2, ?HXY; try lra; try lia.
    f_equal; ring. }
  rewrite Hval.
  pose proof C1_pos as HC1.
  assert (Hlt : (C1 / (255 * 255 + C1) < 1)%R).
  { apply Rmult_lt_reg_r with (255 * 255 + C1)%R; [lra |].
    unfold Rdiv; rewrite Rmult_assoc, Rinv_l by lra; lra. }
  unfold clamp01; rewrite Rmin_right by lra.
  apply Rmax_case_strong; intros; lra.
Qed.

(** ** Heat map *)

(** *** Colour ramp *)

Lemma clamp_unit (x : R) : (0 <= Rmax 0 (Rmin 1 x) <= 1)%R.
Proof. exact (clamp01_range x). Qed.

Lemma blend_range (ci cj : Z) (t : R) :
  0 <= ci <= 255 -> 0 <= cj <= 255 -> (0 <= t <= 1)%R ->
  0 <= Math_round (IZR ci * (1 - t) + IZR cj * t) <= 255.
Proof.
  intros [Hi0 Hi1] [Hj0 Hj1] Ht.
  apply IZR_le in Hi0, Hi1, Hj0, Hj1.
  split; [apply Math_round_ge | apply Math_round_le]; nra.
Qed.

Lemma colorAt_some (i : Z) :
  0 <= i <= 4 ->
  exists c, colorAt i = Some c
            /\ 0 <= r c <= 255 /\ 0 <= g c <= 255 /\ 0 <= b c <= 255.
Proof.
  intros Hi.
  assert (Hcases : i = 0 \/ i = 1 \/ i = 2 \/ i = 3 \/ i = 4) by lia.
  destruct Hcases as [-> | [-> | [-> | [-> | ->]]]];
    (eexists; split; [reflexivity | simpl; lia]).
Qed.

Lemma ramp_last_index : IZR (Z.of_nat (length colors) - 1) = 4%R.
Proof. reflexivity. Qed.

Lemma ramp_index_range (intensity : R) :
  let p := (Rmax 0 (Rmin 1 intensity) * IZR (Z.of_nat (length colors) - 1))%R in
  0 <= Math_floor p <= 4 /\ (0 <= p - IZR (Math_floor p) < 1)%R.
Proof.
  cbv zeta; rewrite ramp_last_index.
  pose proof (clamp_unit intensity) as Hc.
  set (p := (Rmax 0 (Rmin 1 intensity) * 4)%R) in *.
  unfold Math_floor; pose proof (Int_part_bounds p) as Hp.
  split; [| lra].
  split.
  - apply Z.lt_succ_r, lt_IZR; rewrite succ_IZR; unfold p in *; lra.
  - apply Z.lt_succ_r, lt_IZR; rewrite succ_IZR; unfold p in *; lra.
Qed.

Lemma getHeatMapColor_blue (intensity : R) :
  (intensity <= 0)%R ->
  getHeatMapColor intensity = Some {| r := 0; g := 0; b := 255 |}.
Proof.
  intros Hlow; unfold getHeatMapColor; rewrite ramp_last_index.
  rewrite (Rmin_right 1 intensity) by lra.
  rewrite (Rmax_left 0 intensity) by lra.
  rewrite Rmult_0_l.
  unfold Math_floor; rewrite (Int_part_IZR 0).
  change (Z.min (0 + 1) (Z.of_nat (length colors) - 1)) with 1.
  change (colorAt 0) with (Some {| r := 0; g := 0; b := 255 |}).
  change (colorAt 1) with (Some {| r := 0; g := 255; b := 255 |}).
  cbn [r g b].
  f_equal; f_equal.
  - replace (0 * (1 - (0 - 0)) + 0 * (0 - 0))%R with 0%R by lra.
    apply (Math_round_IZR 0).
  - replace (0 * (1 - (0 - 0)) + 255 * (0 - 0))%R with 0%R by lra.
    apply (Math_round_IZR 0).
  - replace (255 * (1 - (0 - 0)) + 255 * (0 - 0))%R with 255%R by lra.
    apply (Math_round_IZR 255).
Qed.

Lemma getHeatMapColor_red (intensity : R) :
  (1 <= intensity)%R ->
  getHeatMapColor intensity = Some {| r := 255; g := 0; b := 0 |}.
Proof.
  intros Hhigh; unfold getHeatMapColor; rewrite ramp_last_index.
  rewrite (Rmin_left 1 intensity) by lra.
  rewrite (Rmax_right 0 1) by lra.
  rewrite Rmult_1_l.
  unfold Math_floor; rewrite (Int_part_IZR 4).
  change (Z.min (4 + 1) (Z.of_nat (length colors) - 1)) with 4.
  change (colorAt 4) with (Some {| r := 255; g := 0; b := 0 |}).
  cbn [r g b].
  f_equal; f_equal.
  - replace (255 * (1 - (4 - 4)) + 255 * (4 - 4))%R with 255%R by lra.
    apply (Math_round_IZR 255).
  - replace (0 * (1 - (4 - 4)) + 0 * (4 - 4))%R with 0%R by lra.
    apply (Math_round_IZR 0).
  - replace (0 * (1 - (4 - 4)) + 0 * (4 - 4))%R with 0%R by lra.
    apply (Math_round_IZR 0).
Qed.

Lemma getHeatMapColor_total (intensity : R) :
  exists c, getHeatMapColor intensity = Some c
            /\ 0 <= r c <= 255 /\ 0 <= g c <= 255 /\ 0 <= b c <= 255.
Proof.
  unfold getHeatMapColor.
  destruct (ramp_index_range intensity) as [Hi Ht]; cbv zeta in Hi, Ht.
  set (p := (Rmax 0 (Rmin 1 intensity) * IZR (Z.of_nat (length colors) - 1))%R) in *.
  set (i := Math_floor p) in *.
  assert (Hj : 0 <= Z.min (i + 1) (Z.of_nat (length colors) - 1) <= 4)
    by (change (Z.of_nat (length colors) - 1) with 4; lia).
  destruct (colorAt_some i Hi) as (ci & -> & Hri & Hgi & Hbi).
  destruct (colorAt_some _ Hj) as (cj & -> & Hrj & Hgj & Hbj).
  eexists; split; [reflexivity |].
  cbn [r g b]; repeat split; apply blend_range; assumption || lra.
Qed.

Lemma ramp_index_top (intensity : R) :
  (1 <= intensity)%R ->
  Math_floor (Rmax 0 (Rmin 1 intensity) * IZR (Z.of_nat (length colors) - 1)) = 4.
Proof.
  intros Hhigh.
  rewrite ramp_last_index, (Rmin_left 1 intensity), (Rmax_right 0 1) by lra.
  rewrite Rmult_1_l; apply (Int_part_IZR 4).
Qed.

(** Claim C10. For every real intensity the ramp lookup succeeds: the clamped
    position gives an index [floor(p)] and a neighbour index within the five
    stops (4 itself at intensity 1 and above), each returned component is an
    integer in [0, 255], non-positive intensities give blue and intensities
    of at least 1 give red. *)
Theorem heatmap_color_total (intensity : R) :
  let p := (Rmax 0 (Rmin 1 intensity) * IZR (Z.of_nat (length colors) - 1))%R in
  let i := Math_floor p in
  let j := Z.min (i + 1) (Z.of_nat (length colors) - 1) in
  (0 <= i < Z.of_nat (length colors) /\ 0 <= j < Z.of_nat (length colors))
  /\ ((1 <= intensity)%R -> i = 4 /\ j = 4)
  /\ (exists c, getHeatMapColor intensity = Some c
                /\ 0 <= r c <= 255 /\ 0 <= g c <= 255 /\ 0 <= b c <= 255)
  /\ ((intensity <= 0)%R ->
      getHeatMapColor intensity = Some {| r := 0; g := 0; b := 255 |})
  /\ ((1 <= intensity)%R ->
      getHeatMapColor intensity = Some {| r := 255; g := 0; b := 0 |}).
Proof.
  cbv zeta.
  destruct (ramp_index_range intensity) as [Hi _]; cbv zeta in Hi.
  pose proof (ramp_index_top intensity) as Htop.
  revert Hi Htop.
  generalize (Math_floor (Rmax 0 (Rmin 1 intensity)
                          * IZR (Z.of_nat (length colors) - 1))).
  intros i Hi Htop.
  change (Z.of_nat (length colors)) with 5.
  repeat split; try lia.
  - apply Htop; assumption.
  - rewrite Htop by assumption; reflexivity.
  - apply getHeatMapColor_total.
  - apply getHeatMapColor_blue.
  - apply getHeatMapColor_red.
Qed.

Lemma heatmap_color_total_witness :
  getHeatMapColor 1 = Some {| r := 255; g := 0; b := 0 |}
  /\ getHeatMapColor 0 = Some {| r := 0; g := 0; b := 255 |}.
Proof.
  split.
  - apply (heatmap_color_total 1); lra.
  - apply (heatmap_color_total 0); lra.
Defined.

(** *** Stored bytes *)

Lemma ToUint8Clamp_IZR (z : Z) : 0 <= z <= 255 -> ToUint8Clamp (IZR z) = z.
Proof.
  intros [H0 H1]; apply IZR_le in H0, H1; unfold ToUint8Clamp.
  rewrite (Rmax_left (IZR z) 0), (Rmin_left (IZR z) 255) by lra.
  rewrite Int_part_IZR.
  destruct (Rlt_dec (IZR z + / 2) (IZR z)) as [H | _]; [lra |].
  destruct (Rlt_dec (IZR z) (IZR z + / 2)) as [_ | H]; [reflexivity | lra].
Qed.




Section StoredPixel.

Variables originalData compressedPixelData : list Z.
Variable i : nat.

Lemma storedPixel_transparent :
  byteAt originalData (i + 3) < 255 ->
  storedPixel originalData compressedPixelData i = [0; 0; 0; 0].
Proof.
  intros Ha; unfold storedPixel, heatMapPixel.
  apply Z.ltb_lt in Ha; rewrite Ha; cbn [map].
  rewrite (ToUint8Clamp_IZR 0) by lia; reflexivity.
Qed.

Lemma heatMapPixel_opaque (col : Color) :
  ~ byteAt originalData (i + 3) < 255 ->
  getHeatMapColor (pixelIntensity originalData compressedPixelData i) = Some col ->
  heatMapPixel originalData compressedPixelData i
  = Some [IZR (r col); IZR (g col); IZR (b col);
          Rmax 30 (pixelIntensity originalData compressedPixelData i * 225)].
Proof.
  intros Ha Hcol; unfold heatMapPixel.
  apply Z.ltb_nlt in Ha; rewrite Ha, Hcol; reflexivity.
Qed.

Lemma storedPixel_opaque (col : Color) :
  ~ byteAt originalData (i + 3) < 255 ->
  getHeatMapColor (pixelIntensity originalData compressedPixelData i) = Some col ->
  storedPixel originalData compressedPixelData i
  = [r col; g col; b col;
     ToUint8Clamp (Rmax 30 (pixelIntensity originalData compressedPixelData i * 225))].
Proof.
  intros Ha Hcol; unfold storedPixel.
  rewrite (heatMapPixel_opaque col Ha Hcol); cbn [map].
  destruct (getHeatMapColor_total (pixelIntensity originalData compressedPixelData i))
    as (col' & Hcol' & Hr & Hg & Hb).
  rewrite Hcol in Hcol'; injection Hcol' as <-.
  rewrite !ToUint8Clamp_IZR by assumption; reflexivity.
Qed.

Lemma heatMapPixel_total :
  exists values,
    heatMapPixel originalData compressedPixelData i = Some values
    /\ length values = 4%nat.
Proof.
  unfold heatMapPixel.
  destruct (byteAt originalData (i + 3) <? 255); [eexists; split; reflexivity |].
  destruct (getHeatMapColor_total (pixelIntensity originalData compressedPixelData i))
    as (col & -> & _).
  eexists; split; reflexivity.
Qed.

Lemma storedPixel_length :
  length (storedPixel originalData compressedPixelData i) = 4%nat.
Proof.
  unfold storedPixel; destruct heatMapPixel_total as (values & -> & Hlen).
  rewrite length_map; exact Hlen.
Qed.

End StoredPixel.

(** *** The pixel loop *)

Lemma concat_chunks_length {A : Type} (f : nat -> list A) (s n : nat) :
  (forall k, length (f k) = 4%nat) ->
  length (concat (map f (seq s n))) = (4 * n)%nat.
Proof.
  intros Hf; revert s; induction n as [| n IH]; intros s; [reflexivity |].
  cbn [seq map concat]; rewrite length_app, Hf, IH; lia.
Qed.

Lemma concat_chunk {A : Type} (f : nat -> list A) (n : nat) :
  (forall k, length (f k) = 4%nat) ->
  forall s k, (k < n)%nat ->
    firstn 4 (skipn (4 * k) (concat (map f (seq s n)))) = f (s + k)%nat.
Proof.
  intros Hf; induction n as [| n IH]; intros s k Hk; [lia |].
  cbn [seq map concat]; destruct k as [| k].
  - rewrite Nat.mul_0_r, Nat.add_0_r, skipn_O.
    rewrite firstn_app, Hf, Nat.sub_diag, firstn_O, app_nil_r.
    apply firstn_all2; rewrite Hf; lia.
  - rewrite skipn_app, Hf.
    rewrite (skipn_all2 (f s)) by (rewrite Hf; lia); cbn [app].
    replace (4 * S k - 4)%nat with (4 * k)%nat by lia.
    rewrite (IH (S s) k) by lia; f_equal; lia.
Qed.

Section HeatMapLoop.

Variables originalData compressedPixelData : list Z.
Variable n : nat.
Variable initial : list Z.
Hypothesis initial_length : length initial = (4 * n)%nat.

Let stored (k : nat) : list Z := storedPixel originalData compressedPixelData (4 * k).

Lemma stored_length (k : nat) : length (stored k) = 4%nat.
Proof. apply storedPixel_length. Qed.

(** After the first [m] pixels the buffer holds their stored bytes followed
    by the untouched rest. *)
Lemma heatMap_prefix (m : nat) :
  (m <= n)%nat ->
  fold_left (heatMapStep originalData compressedPixelData)
            (map (fun k => (4 * k)%nat) (seq 0 m)) (Some initial)
  = Some (concat (map stored (seq 0 m)) ++ skipn (4 * m) initial).
Proof.
  induction m as [| m IH]; intros Hm; [reflexivity |].
  rewrite seq_S, !map_app, fold_left_app, IH by lia.
  cbn [Nat.add map fold_left heatMapStep].
  pose proof (concat_chunks_length stored 0 m stored_length) as Hprefix.
  destruct (heatMapPixel_total originalData compressedPixelData (4 * m))
    as (values & Hvalues & Hlen).
  assert (Hstored : stored m = map ToUint8Clamp values)
    by (unfold stored, storedPixel; rewrite Hvalues; reflexivity).
  rewrite Hvalues; unfold typedSet; rewrite Hlen.
  replace (4 * m + 4 <=? length (concat (map stored (seq 0 m)) ++ skipn (4 * m) initial))%nat
    with true
    by (symmetry; apply Nat.leb_le; rewrite length_app, length_skipn, Hprefix; lia).
  f_equal.
  rewrite firstn_app, Hprefix, Nat.sub_diag, firstn_O, app_nil_r.
  rewrite (firstn_all2 (concat (map stored (seq 0 m)))) by (rewrite Hprefix; lia).
  rewrite skipn_app, Hprefix.
  rewrite (skipn_all2 (concat (map stored (seq 0 m)))) by (rewrite Hprefix; lia).
  cbn [app]; replace (4 * m + 4 - 4 * m)%nat with 4%nat by lia.
  rewrite skipn_skipn, concat_app, <- Hstored; cbn [concat].
  rewrite app_nil_r, <- app_assoc.
  do 3 f_equal; lia.
Qed.

End HeatMapLoop.

Lemma updateHeatMap_stored (displayWidth displayHeight : nat)
      (originalData compressedPixelData : list Z) :
  length originalData = (4 * (displayWidth * displayHeight))%nat ->
  updateHeatMap displayWidth displayHeight originalData compressedPixelData
  = Some (concat (map (fun k => storedPixel originalData compressedPixelData (4 * k))
                      (seq 0 (displayWidth * displayHeight)))).
Proof.
  intros Hlen; unfold updateHeatMap; rewrite Hlen, pixelOffsets_exact.
  rewrite (heatMap_prefix originalData compressedPixelData (displayWidth * displayHeight))
    by (rewrite ?repeat_length; lia).
  rewrite skipn_all2 by (rewrite repeat_length; lia).
  rewrite app_nil_r; reflexivity.
Qed.

Lemma updateHeatMap_pixel (a b : ImageData.t) (k : nat) :
  wellFormed a = true ->
  (k < ImageData.width a * ImageData.height a)%nat ->
  exists out,
    updateHeatMap (ImageData.width a) (ImageData.height a)
                  (ImageData.data a) (ImageData.data b) = Some out
    /\ length out = length (ImageData.data a)
    /\ pixelBytes out k = storedPixel (ImageData.data a) (ImageData.data b) (4 * k).
Proof.
  intros Hwf Hk; pose proof (wellFormed_length a Hwf) as Hlen.
  eexists; split; [apply updateHeatMap_stored; exact Hlen |].
  split.
  - rewrite concat_chunks_length, Hlen; [reflexivity |].
    intros j; apply storedPixel_length.
  - unfold pixelBytes.
    rewrite (concat_chunk (fun j => storedPixel (ImageData.data a) (ImageData.data b) (4 * j))
                          (ImageData.width a * ImageData.height a)
                          (fun j => storedPixel_length _ _ _) 0 k Hk).
    reflexivity.
Qed.




(** * Further properties *)

(** ** Dead-zone search: what the result says about the probes *)

Section ScanOutcome.

Variable toBlob : Canvas -> Z -> BlobResult.
Variables (c : Canvas) (reference : Z).

Let probe (quality : Z) : EncodeCall :=
  {| encodedCanvas := c; encodedQuality := quality |}.

(** A scan either runs through the whole list or stops at its first
    candidate that does not exceed the reference. *)
Lemma scanQualities_cases (qualities : list Z) (t0 : Z) :
  ((forall x, In x qualities -> exceeds reference (toBlob c x) = true)
   /\ scanQualities toBlob c reference qualities t0
      = (last qualities t0, map probe qualities))
  \/ (exists pre q post,
        qualities = pre ++ q :: post
        /\ (forall x, In x pre -> exceeds reference (toBlob c x) = true)
        /\ exceeds reference (toBlob c q) = false
        /\ scanQualities toBlob c reference qualities t0
           = (q + 1, map probe (pre ++ [q]))).
Proof.
  assert (Hsplit :
    (forall x, In x qualities -> exceeds reference (toBlob c x) = true)
    \/ exists pre q post,
         qualities = pre ++ q :: post
         /\ (forall x, In x pre -> exceeds reference (toBlob c x) = true)
         /\ exceeds reference (toBlob c q) = false).
  { induction qualities as [| x rest IH]; [left; intros x [] |].
    destruct (exceeds reference (toBlob c x)) eqn:Hx.
    - destruct IH as [Hall | (pre & q & post & -> & Hpre & Hq)].
      + left; intros y [<- | Hy]; [exact Hx | apply Hall, Hy].
      + right; exists (x :: pre), q, post; repeat split; try assumption.
        intros y [<- | Hy]; [exact Hx | apply Hpre, Hy].
    - right; exists [], x, rest; repeat split; [intros y [] | exact Hx]. }
  destruct Hsplit as [Hall | (pre & q & post & -> & Hpre & Hq)].
  - left; split; [exact Hall | apply scanQualities_all_exceed, Hall].
  - right; exists pre, q, post; repeat split; try assumption.
    apply scanQualities_first_fit; assumption.
Qed.

End ScanOutcome.

(** In a strictly decreasing list, what is larger than an element stands
    before it, and what stands before it is larger. *)
Lemma descending_above (l : list Z) :
  descending l = true ->
  forall x y rest, l = x :: rest -> In y rest -> y < x.
Proof.
  induction l as [| a l IH]; intros Hd x y rest Heq Hin; [discriminate |].
  injection Heq as -> ->.
  destruct rest as [| b rest]; [contradiction |].
  cbn [descending] in Hd; apply andb_true_iff in Hd; destruct Hd as [Hb Hd].
  apply Z.ltb_lt in Hb.
  destruct Hin as [<- | Hin]; [exact Hb |].
  pose proof (IH Hd b y rest eq_refl Hin); lia.
Qed.

Lemma descending_tail (x : Z) (rest : list Z) :
  descending (x :: rest) = true -> descending rest = true.
Proof.
  destruct rest as [| y rest]; [reflexivity |].
  cbn [descending]; intros H; apply andb_true_iff in H; apply H.
Qed.

Lemma descending_split (pre : list Z) :
  forall q post,
    descending (pre ++ q :: post) = true ->
    (forall x, In x pre -> q < x) /\ (forall x, In x post -> x < q).
Proof.
  induction pre as [| a pre IH]; intros q post Hd.
  - split; [intros x [] |].
    intros x Hx; exact (descending_above _ Hd q x post eq_refl Hx).
  - pose proof (descending_tail _ _ Hd) as Hd'.
    destruct (IH q post Hd') as [Hpre Hpost]; split; [| exact Hpost].
    intros x [Hx | Hx]; [| apply Hpre, Hx].
    subst x; apply (descending_above _ Hd a q (pre ++ q :: post) eq_refl).
    apply in_elt.
Qed.

Lemma filter_descending_split (pre : list Z) (q : Z) (post : list Z) :
  descending (pre ++ q :: post) = true ->
  filter (fun x => q <=? x) (pre ++ q :: post) = pre ++ [q].
Proof.
  intros Hd; destruct (descending_split pre q post Hd) as [Hpre Hpost].
  rewrite filter_app; cbn [filter]; rewrite Z.leb_refl.
  assert (Hkeep : filter (fun x => q <=? x) pre = pre).
  { clear Hd Hpost; induction pre as [| a pre IH]; [reflexivity |].
    cbn [filter].
    replace (q <=? a) with true
      by (symmetry; apply Z.leb_le; specialize (Hpre a (or_introl eq_refl)); lia).
    rewrite IH; [reflexivity | intros x Hx; apply Hpre; right; exact Hx]. }
  assert (Hdrop : filter (fun x => q <=? x) post = []).
  { clear Hd Hpre; induction post as [| a post IH]; [reflexivity |].
    cbn [filter].
    replace (q <=? a) with false
      by (symmetry; apply Z.leb_gt; apply Hpost; left; reflexivity).
    apply IH; intros x Hx; apply Hpost; right; exact Hx. }
  rewrite Hkeep, Hdrop; reflexivity.
Qed.

Lemma filter_all_kept (l : list Z) (lo : Z) :
  (forall x, In x l -> lo <= x) -> filter (fun x => lo <=? x) l = l.
Proof.
  induction l as [| a l IH]; intros Hall; [reflexivity |].
  cbn [filter].
  replace (lo <=? a) with true
    by (symmetry; apply Z.leb_le, Hall; left; reflexivity).
  rewrite IH; [reflexivity | intros x Hx; apply Hall; right; exact Hx].
Qed.

(** X1. The search answers 101 exactly when it is not run: with no image,
    no file or a reference size of 0 it makes no encoder call and returns
    101; otherwise it makes between 1 and 15 calls and returns a value
    between 70 and 100. *)
Theorem deadzone_101_iff_skipped
        (toBlob : Canvas -> Z -> BlobResult) (app : Imagify) :
  let result := findDeadZoneThreshold toBlob app in
  let skippedSearch :=
    originalImage app = None \/ originalFile app = None \/ originalSize app = 0 in
  (skippedSearch -> threshold result = 101 /\ probes result = [])
  /\ (~ skippedSearch ->
      70 <= threshold result <= 100
      /\ (1 <= length (probes result) <= 15)%nat).
Proof.
  cbv zeta; split.
  - intros H; unfold findDeadZoneThreshold.
    destruct (originalImage app) as [img |]; [| split; reflexivity].
    destruct (originalFile app) as [file |]; [| split; reflexivity].
    destruct H as [H | [H | H]]; try discriminate.
    rewrite H; split; reflexivity.
  - intros Hrun.
    destruct (originalImage app) as [img |] eqn:Himg; [| exfalso; apply Hrun; auto].
    destruct (originalFile app) as [file |] eqn:Hfile; [| exfalso; apply Hrun; auto].
    assert (Hsize : originalSize app <> 0) by (intros H; apply Hrun; auto).
    rewrite (findDeadZoneThreshold_scan toBlob app img file Himg Hfile Hsize).
    destruct (scanQualities_cases toBlob (probeCanvas app img file) (originalSize app)
                                  testQualities 101)
      as [[_ ->] | (pre & q & post & Hladder & _ & _ & ->)].
    + cbn [threshold probes]; rewrite length_map.
      split; [vm_compute; split; discriminate | simpl; lia].
    + cbn [threshold probes]; rewrite length_map.
      assert (Hin : In q testQualities) by (rewrite Hladder; apply in_elt).
      apply testQualities_range in Hin.
      assert (Hlen : length testQualities = 15%nat) by reflexivity.
      rewrite Hladder, !length_app in Hlen; cbn [length] in Hlen.
      rewrite length_app; cbn [length]; split; lia.
Qed.

Lemma deadzone_101_iff_skipped_witness :
  threshold (findDeadZoneThreshold alwaysLarger
               {| originalImage := Some photo; originalFile := None; originalSize := 0;
                  currentQuality := 100; maxWidthInput := None; maxHeightInput := None |})
  = 101
  /\ 70 <= threshold (findDeadZoneThreshold alwaysLarger (session "image/jpeg")) <= 100.
Proof.
  split.
  - apply (proj1 (deadzone_101_iff_skipped alwaysLarger _)); right; left; reflexivity.
  - apply (proj2 (deadzone_101_iff_skipped alwaysLarger (session "image/jpeg"))).
    intros [H | [H | H]]; discriminate H.
Defined.

(** X2. When the search runs, its result [t] is sound for the ladder: every
    candidate at or above [t] was encoded and exceeded the reference; unless
    [t] is 70, the candidate [t - 1] is on the ladder, was encoded and did
    not exceed it; and the candidates encoded are exactly those at or above
    [t - 1], in ladder order. *)
Theorem deadzone_threshold_sound
        (toBlob : Canvas -> Z -> BlobResult)
        (app : Imagify) (img : Image) (file : File)
        (Hloaded : originalImage app = Some img)
        (Hselected : originalFile app = Some file)
        (Hnonempty : originalSize app <> 0) :
  let result := findDeadZoneThreshold toBlob app in
  let t := threshold result in
  let oversize quality :=
    exceeds (originalSize app) (toBlob (probeCanvas app img file) quality) in
  (forall quality, In quality testQualities -> t <= quality -> oversize quality = true)
  /\ (t = 70 \/ (In (t - 1) testQualities /\ oversize (t - 1) = false))
  /\ map encodedQuality (probes result)
     = filter (fun quality => t - 1 <=? quality) testQualities.
Proof.
  cbv zeta.
  rewrite (findDeadZoneThreshold_scan toBlob app img file Hloaded Hselected Hnonempty).
  assert (Hdesc : descending testQualities = true) by reflexivity.
  destruct (scanQualities_cases toBlob (probeCanvas app img file) (originalSize app)
                                testQualities 101)
    as [[Hall ->] | (pre & q & post & Hladder & Hpre & Hq & ->)].
  - cbn [threshold probes].
    change (Z.max 1 (Z.min (last testQualities 101) 101)) with 70.
    split; [intros quality Hin _; apply Hall, Hin |].
    split; [left; reflexivity |].
    rewrite map_map; cbn [encodedQuality]; rewrite map_id.
    symmetry; apply filter_all_kept.
    intros x Hx; apply testQualities_range in Hx; lia.
  - cbn [threshold probes].
    assert (Hin : In q testQualities) by (rewrite Hladder; apply in_elt).
    pose proof (testQualities_range q Hin) as Hrange.
    replace (Z.max 1 (Z.min (q + 1) 101)) with (q + 1) by lia.
    replace (q + 1 - 1) with q by lia.
    rewrite Hladder in Hdesc.
    destruct (descending_split pre q post Hdesc) as [Habove Hbelow].
    split; [| split].
    + intros quality Hquality Hge; rewrite Hladder in Hquality.
      apply in_app_or in Hquality; destruct Hquality as [Hp | [<- | Hp]].
      * apply Hpre, Hp.
      * lia.
      * specialize (Hbelow quality Hp); lia.
    + right; split; [exact Hin | exact Hq].
    + rewrite map_map; cbn [encodedQuality]; rewrite map_id, Hladder.
      symmetry; apply filter_descending_split; exact Hdesc.
Qed.

Lemma deadzone_threshold_sound_witness :
  map encodedQuality (probes (findDeadZoneThreshold dipAt80 (session "image/jpeg")))
  = filter (fun quality =>
              threshold (findDeadZoneThreshold dipAt80 (session "image/jpeg")) - 1
              <=? quality) testQualities.
Proof.
  assert (Hnonempty : originalSize (session "image/jpeg") <> 0) by (simpl; lia).
  apply (deadzone_threshold_sound dipAt80 (session "image/jpeg") photo
           {| type := "image/jpeg"; size := 50000 |} eq_refl eq_refl Hnonempty).
Defined.

(** X3. The highlight width written by [updateDeadZoneHighlight] is
    [101 - threshold]: 0 when the image has no file or a reference size of 0,
    and otherwise between 1 and 31, so a search that ran always leaves a
    highlight, at least over quality 100. *)
Theorem deadzone_highlight_width
        (toBlob : Canvas -> Z -> BlobResult) (app : Imagify) (img : Image)
        (Hloaded : originalImage app = Some img) :
  exists deadZoneWidth,
    updateDeadZoneHighlight toBlob app = Some deadZoneWidth
    /\ deadZoneWidth = 101 - threshold (findDeadZoneThreshold toBlob app)
    /\ ((originalFile app = None \/ originalSize app = 0) -> deadZoneWidth = 0)
    /\ (originalFile app <> None -> originalSize app <> 0 -> 1 <= deadZoneWidth <= 31).
Proof.
  unfold updateDeadZoneHighlight; rewrite Hloaded.
  destruct (deadzone_101_iff_skipped toBlob app) as [Hskip Hrun]; cbv zeta in Hskip, Hrun.
  eexists; split; [reflexivity |].
  set (t := threshold (findDeadZoneThreshold toBlob app)) in *.
  assert (Hcases : t = 101 \/ 70 <= t <= 100).
  { destruct (originalFile app) as [file |] eqn:Hfile.
    - destruct (Z.eq_dec (originalSize app) 0) as [H0 | H0].
      + left; apply Hskip; auto.
      + right; apply Hrun; rewrite Hloaded; intros [H | [H | H]];
          [discriminate | discriminate | contradiction].
    - left; apply Hskip; auto. }
  split; [| split].
  - destruct Hcases as [-> | Ht]; [reflexivity |].
    replace (t <=? 100) with true by (symmetry; apply Z.leb_le; lia); lia.
  - intros Hdeg.
    assert (Ht : t = 101) by (apply Hskip; destruct Hdeg; auto).
    rewrite Ht; reflexivity.
  - intros Hfile Hsize.
    assert (Ht : 70 <= t <= 100).
    { apply Hrun; rewrite Hloaded; intros [H | [H | H]];
        [discriminate | contradiction | contradiction]. }
    replace (t <=? 100) with true by (symmetry; apply Z.leb_le; lia); lia.
Qed.

Lemma deadzone_highlight_width_witness :
  updateDeadZoneHighlight dipAt80 (session "image/jpeg") = Some 20.
Proof.
  destruct (deadzone_highlight_width dipAt80 (session "image/jpeg") photo eq_refl)
    as (w & Hw & Heq & _).
  rewrite Hw, Heq; f_equal.
  assert (Hnonempty : originalSize (session "image/jpeg") <> 0) by (simpl; lia).
  rewrite (findDeadZoneThreshold_first_fit dipAt80 (session "image/jpeg") photo
             {| type := "image/jpeg"; size := 50000 |} eq_refl eq_refl Hnonempty
             [99; 98; 97; 96; 95; 94; 93; 92; 91; 90; 88; 85] 80 [75; 70] eq_refl);
    [reflexivity | | reflexivity].
  intros x Hx; simpl in Hx.
  repeat (destruct Hx as [Hx | Hx]; [subst x; reflexivity |]); contradiction.
Defined.

(** ** Resizer: limits, exact fits and degenerate limits *)

Lemma Int_part_quotient (a d : Z) : 0 < d -> Int_part (IZR a / IZR d) = a / d.
Proof.
  intros Hd; apply Int_part_unique.
  pose proof (Z.div_mod a d ltac:(lia)) as Hdm.
  pose proof (Z.mod_pos_bound a d Hd) as Hmod.
  assert (HdR : (0 < IZR d)%R) by (apply IZR_lt; exact Hd).
  assert (Ha : IZR a = (IZR d * IZR (a / d) + IZR (a mod d))%R)
    by (rewrite <- mult_IZR, <- plus_IZR; f_equal; exact Hdm).
  assert (Hr0 : (0 <= IZR (a mod d))%R) by (apply IZR_le; lia).
  assert (Hr1 : (IZR (a mod d) < IZR d)%R) by (apply IZR_lt; lia).
  split.
  - apply Rmult_le_reg_r with (IZR d); [exact HdR |].
    unfold Rdiv; rewrite Rmult_assoc, Rinv_l by lra; nra.
  - apply Rmult_lt_reg_r with (IZR d); [exact HdR |].
    unfold Rdiv; rewrite Rmult_assoc, Rinv_l by lra; nra.
Qed.

(** [Math.round] of a quotient of integers, in integer arithmetic. *)
Lemma Math_round_quotient (a d : Z) :
  0 < d -> Math_round (IZR a / IZR d) = (2 * a + d) / (2 * d).
Proof.
  intros Hd; unfold Math_round.
  assert (HdR : (0 < IZR d)%R) by (apply IZR_lt; exact Hd).
  replace (IZR a / IZR d + / 2)%R with (IZR (2 * a + d) / IZR (2 * d))%R.
  - apply Int_part_quotient; lia.
  - rewrite plus_IZR, !mult_IZR; field; lra.
Qed.

Lemma Math_min3_le_l (a b c : R) : (Math_min3 a b c <= a)%R.
Proof. unfold Math_min3; eapply Rle_trans; [apply Rmin_l | apply Rmin_l]. Qed.

Lemma Math_min3_le_m (a b c : R) : (Math_min3 a b c <= b)%R.
Proof. unfold Math_min3; eapply Rle_trans; [apply Rmin_l | apply Rmin_r]. Qed.

Lemma Math_min3_first (a b : R) : (a <= b)%R -> (a <= 1)%R -> Math_min3 a b 1 = a.
Proof.
  intros Hab Ha; unfold Math_min3.
  rewrite (Rmin_left a b Hab); apply Rmin_left; exact Ha.
Qed.

Lemma quotient_cancel (n m : Z) : 0 < n -> (IZR n * (IZR m / IZR n) = IZR m)%R.
Proof. intros Hn; apply IZR_lt in Hn; field; lra. Qed.

(** The compression size is the display size of the natural size under the
    limits typed in, each limit read as the natural size when [parseInt]
    gives nothing usable. *)
Lemma calculateCompressionSize_as_display (app : Imagify) (img : Image) :
  originalImage app = Some img ->
  0 < naturalWidth img -> 0 < naturalHeight img ->
  calculateCompressionSize app
  = calculateDisplaySize (naturalWidth img) (naturalHeight img)
                         (parsedOr (maxWidthInput app) (naturalWidth img))
                         (parsedOr (maxHeightInput app) (naturalHeight img)).
Proof.
  intros Hloaded Hw Hh; unfold calculateCompressionSize, calculateDisplaySize.
  rewrite Hloaded, (guard_passes _ _ Hw Hh); reflexivity.
Qed.

Section DisplaySize.

Variables originalWidth originalHeight maxWidth maxHeight : Z.
Hypothesis width_pos : 0 < originalWidth.
Hypothesis height_pos : 0 < originalHeight.

Let result : Size :=
  calculateDisplaySize originalWidth originalHeight maxWidth maxHeight.

Lemma displaySize_unfold :
  result
  = let ratio := Math_min3 (IZR maxWidth / IZR originalWidth)
                           (IZR maxHeight / IZR originalHeight) 1%R in
    {| width := Z.max 1 (Math_round (IZR originalWidth * ratio));
       height := Z.max 1 (Math_round (IZR originalHeight * ratio)) |}.
Proof.
  unfold result, calculateDisplaySize.
  rewrite (guard_passes _ _ width_pos height_pos); reflexivity.
Qed.

Lemma displaySize_at_least_1 : 1 <= width result /\ 1 <= height result.
Proof. rewrite displaySize_unfold; cbn [width height]; split; lia. Qed.

Lemma displaySize_within_width : 1 <= maxWidth -> width result <= maxWidth.
Proof.
  intros Hmax; rewrite displaySize_unfold; cbn [width].
  apply Z.max_lub; [exact Hmax |].
  apply Math_round_le.
  pose proof (Math_min3_le_l (IZR maxWidth / IZR originalWidth)
                             (IZR maxHeight / IZR originalHeight) 1) as Hr.
  apply Rle_trans with (IZR originalWidth * (IZR maxWidth / IZR originalWidth))%R;
    [| right; apply quotient_cancel; exact width_pos].
  apply Rmult_le_compat_l; [apply IZR_le; lia | exact Hr].
Qed.

Lemma displaySize_within_height : 1 <= maxHeight -> height result <= maxHeight.
Proof.
  intros Hmax; rewrite displaySize_unfold; cbn [height].
  apply Z.max_lub; [exact Hmax |].
  apply Math_round_le.
  pose proof (Math_min3_le_m (IZR maxWidth / IZR originalWidth)
                             (IZR maxHeight / IZR originalHeight) 1) as Hr.
  apply Rle_trans with (IZR originalHeight * (IZR maxHeight / IZR originalHeight))%R;
    [| right; apply quotient_cancel; exact height_pos].
  apply Rmult_le_compat_l; [apply IZR_le; lia | exact Hr].
Qed.

(** The width limit binds: it is not above the source width and asks for a
    scale not above that of the height limit. *)
Hypothesis width_binds :
  1 <= maxWidth <= originalWidth
  /\ maxWidth * originalHeight <= maxHeight * originalWidth.

Lemma displaySize_ratio :
  Math_min3 (IZR maxWidth / IZR originalWidth) (IZR maxHeight / IZR originalHeight) 1
  = (IZR maxWidth / IZR originalWidth)%R.
Proof.
  destruct width_binds as [[Hlo Hhi] Hcross].
  assert (HwR : (0 < IZR originalWidth)%R) by (apply IZR_lt; lia).
  assert (HhR : (0 < IZR originalHeight)%R) by (apply IZR_lt; lia).
  apply Math_min3_first.
  - apply Rmult_le_reg_r with (IZR originalWidth * IZR originalHeight)%R; [nra |].
    replace (IZR maxWidth / IZR originalWidth * (IZR originalWidth * IZR originalHeight))%R
      with (IZR (maxWidth * originalHeight)) by (rewrite mult_IZR; field; lra).
    replace (IZR maxHeight / IZR originalHeight * (IZR originalWidth * IZR originalHeight))%R
      with (IZR (maxHeight * originalWidth)) by (rewrite mult_IZR; field; lra).
    apply IZR_le; exact Hcross.
  - apply Rmult_le_reg_r with (IZR originalWidth); [exact HwR |].
    unfold Rdiv; rewrite Rmult_assoc, Rinv_l by lra.
    rewrite Rmult_1_r, Rmult_1_l; apply IZR_le; exact Hhi.
Qed.

Lemma displaySize_binding_width :
  result
  = {| width := maxWidth;
       height := Z.max 1 ((2 * (originalHeight * maxWidth) + originalWidth)
                          / (2 * originalWidth)) |}.
Proof.
  rewrite displaySize_unfold; cbv zeta; rewrite displaySize_ratio.
  rewrite (quotient_cancel originalWidth maxWidth width_pos), Math_round_IZR.
  replace (IZR originalHeight * (IZR maxWidth / IZR originalWidth))%R
    with (IZR (originalHeight * maxWidth) / IZR originalWidth)%R
    by (rewrite mult_IZR; unfold Rdiv; ring).
  rewrite (Math_round_quotient _ _ width_pos).
  f_equal; destruct width_binds; lia.
Qed.

Lemma displaySize_half_pixel :
  originalWidth <= 2 * (originalHeight * maxWidth) ->
  2 * Z.abs (height result * originalWidth - originalHeight * maxWidth) <= originalWidth.
Proof.
  intros Hbig; rewrite displaySize_binding_width; cbn [height].
  set (a := 2 * (originalHeight * maxWidth) + originalWidth).
  pose proof (Z.div_mod a (2 * originalWidth) ltac:(lia)) as Hdm.
  pose proof (Z.mod_pos_bound a (2 * originalWidth) ltac:(lia)) as Hmod.
  assert (Hq : 1 <= a / (2 * originalWidth))
    by (apply Z.div_le_lower_bound; unfold a; lia).
  rewrite Z.max_r by exact Hq.
  unfold a in *; lia.
Qed.

End DisplaySize.

(** X4. For a source of positive size both resizers return dimensions of at
    least 1, and a dimension never exceeds a limit of at least 1: the
    display size fits its box, and the compression size fits each limit that
    was typed in. *)
Theorem resizer_fits_limits
        (app : Imagify) (img : Image) (maxWidth maxHeight : Z)
        (Hloaded : originalImage app = Some img)
        (Hwidth : 0 < naturalWidth img)
        (Hheight : 0 < naturalHeight img) :
  let display :=
    calculateDisplaySize (naturalWidth img) (naturalHeight img) maxWidth maxHeight in
  let target := calculateCompressionSize app in
  (1 <= width display /\ 1 <= height display
   /\ 1 <= width target /\ 1 <= height target)
  /\ (1 <= maxWidth -> width display <= maxWidth)
  /\ (1 <= maxHeight -> height display <= maxHeight)
  /\ (forall limit, maxWidthInput app = Some limit -> 1 <= limit ->
                    width target <= limit)
  /\ (forall limit, maxHeightInput app = Some limit -> 1 <= limit ->
                    height target <= limit).
Proof.
  cbv zeta.
  rewrite (calculateCompressionSize_as_display app img Hloaded Hwidth Hheight).
  split; [| split; [| split; [| split]]].
  - destruct (displaySize_at_least_1 _ _ maxWidth maxHeight Hwidth Hheight).
    destruct (displaySize_at_least_1 _ _
                (parsedOr (maxWidthInput app) (naturalWidth img))
                (parsedOr (maxHeightInput app) (naturalHeight img)) Hwidth Hheight).
    auto.
  - apply displaySize_within_width; assumption.
  - apply displaySize_within_height; assumption.
  - intros limit Hlimit Hpos; rewrite Hlimit; cbn [parsedOr].
    replace (limit =? 0) with false by (symmetry; apply Z.eqb_neq; lia).
    apply displaySize_within_width; assumption.
  - intros limit Hlimit Hpos; rewrite Hlimit; cbn [parsedOr].
    replace (limit =? 0) with false by (symmetry; apply Z.eqb_neq; lia).
    apply displaySize_within_height; assumption.
Qed.

Lemma resizer_fits_limits_witness :
  width (calculateDisplaySize 800 600 400 400) <= 400
  /\ height (calculateDisplaySize 800 600 400 400) <= 400.
Proof.
  destruct (resizer_fits_limits (session "image/jpeg") photo 400 400
              eq_refl eq_refl eq_refl) as (_ & Hw & Hh & _).
  split; [apply Hw | apply Hh]; lia.
Defined.

(** X5. When the width limit binds (it is between 1 and the source width
    and asks for no larger a scale than the height limit), the display size
    has exactly that width, and its height is a nearest integer to the source
    height scaled by [maxWidth / originalWidth]: within half a pixel of it,
    either neighbour being allowed at an exact tie, where the rounding of the
    binary64 product decides (928x145 at width 400 has the exact height
    62.5).  So the height is the scaled height itself whenever that is an
    integer, and it is 1 when the scaled height is below one half. *)
Theorem resizer_binding_width
        (originalWidth originalHeight maxWidth maxHeight : Z)
        (Hwidth : 0 < originalWidth)
        (Hheight : 0 < originalHeight)
        (Hbinds : 1 <= maxWidth <= originalWidth
                  /\ maxWidth * originalHeight <= maxHeight * originalWidth) :
  let result := calculateDisplaySize originalWidth originalHeight maxWidth maxHeight in
  width result = maxWidth
  /\ 1 <= height result
  /\ (originalWidth <= 2 * (originalHeight * maxWidth) ->
      2 * Z.abs (height result * originalWidth - originalHeight * maxWidth)
      <= originalWidth)
  /\ (2 * (originalHeight * maxWidth) < originalWidth -> height result = 1)
  /\ (forall scaled, originalHeight * maxWidth = scaled * originalWidth ->
                     height result = scaled).
Proof.
  cbv zeta.
  pose proof (displaySize_half_pixel _ _ _ _ Hwidth Hheight Hbinds) as Hhalf.
  pose proof (displaySize_at_least_1 originalWidth originalHeight maxWidth maxHeight
                                     Hwidth Hheight) as [_ Hone].
  split; [| split; [| split; [| split]]].
  - rewrite (displaySize_binding_width _ _ _ _ Hwidth Hheight Hbinds); reflexivity.
  - exact Hone.
  - exact Hhalf.
  - intros Hsmall.
    rewrite (displaySize_binding_width _ _ _ _ Hwidth Hheight Hbinds); cbn [height].
    rewrite Z.div_small by lia; reflexivity.
  - intros scaled Hscaled.
    assert (Hpos : 1 <= scaled) by nia.
    assert (Hbig : originalWidth <= 2 * (originalHeight * maxWidth)) by nia.
    specialize (Hhalf Hbig); rewrite Hscaled in Hhalf.
    revert Hhalf Hone;
      generalize (height (calculateDisplaySize originalWidth originalHeight
                                               maxWidth maxHeight)).
    intros h Hhalf Hone; nia.
Qed.

(** Scenario B of the specification: 800x600 under a width limit of 400. *)
Lemma resizer_binding_width_witness :
  calculateDisplaySize 800 600 400 400 = {| width := 400; height := 300 |}.
Proof.
  assert (Hbinds : 1 <= 400 <= 800 /\ 400 * 600 <= 400 * 800) by lia.
  destruct (resizer_binding_width 800 600 400 400 eq_refl eq_refl Hbinds)
    as (Hw & _ & _ & _ & Hh).
  specialize (Hh 300 eq_refl).
  destruct (calculateDisplaySize 800 600 400 400) as [w h]; cbn [width height] in *.
  rewrite Hw, Hh; reflexivity.
Defined.

(** X6. A negative limit collapses the result: with a source of positive
    size, a negative width or height limit makes both resizers return 1x1. *)
Theorem resizer_negative_limit
        (app : Imagify) (img : Image) (maxWidth maxHeight : Z)
        (Hloaded : originalImage app = Some img)
        (Hwidth : 0 < naturalWidth img)
        (Hheight : 0 < naturalHeight img) :
  (maxWidth < 0 \/ maxHeight < 0 ->
   calculateDisplaySize (naturalWidth img) (naturalHeight img) maxWidth maxHeight
   = {| width := 1; height := 1 |})
  /\ ((exists limit, limit < 0
                     /\ (maxWidthInput app = Some limit \/ maxHeightInput app = Some limit)) ->
      calculateCompressionSize app = {| width := 1; height := 1 |}).
Proof.
  assert (Hneg : forall mw mh, mw < 0 \/ mh < 0 ->
            calculateDisplaySize (naturalWidth img) (naturalHeight img) mw mh
            = {| width := 1; height := 1 |}).
  { intros mw mh Hlimit.
    unfold calculateDisplaySize; rewrite (guard_passes _ _ Hwidth Hheight); cbv zeta.
    assert (HwR : (0 < IZR (naturalWidth img))%R) by (apply IZR_lt; exact Hwidth).
    assert (HhR : (0 < IZR (naturalHeight img))%R) by (apply IZR_lt; exact Hheight).
    set (ratio := Math_min3 (IZR mw / IZR (naturalWidth img))
                            (IZR mh / IZR (naturalHeight img)) 1).
    assert (Hratio : (ratio < 0)%R).
    { destruct Hlimit as [H | H]; apply IZR_lt in H.
      - eapply Rle_lt_trans; [apply Math_min3_le_l |].
        unfold Rdiv; apply Rmult_neg_pos; [exact H | apply Rinv_0_lt_compat; exact HwR].
      - eapply Rle_lt_trans; [apply Math_min3_le_m |].
        unfold Rdiv; apply Rmult_neg_pos; [exact H | apply Rinv_0_lt_compat; exact HhR]. }
    assert (H1 : Math_round (IZR (naturalWidth img) * ratio) <= 0)
      by (apply Math_round_le; nra).
    assert (H2 : Math_round (IZR (naturalHeight img) * ratio) <= 0)
      by (apply Math_round_le; nra).
    f_equal; lia. }
  split; [apply Hneg |].
  intros (limit & Hlimit & Hwhere).
  rewrite (calculateCompressionSize_as_display app img Hloaded Hwidth Hheight).
  apply Hneg.
  destruct Hwhere as [H | H]; rewrite H; cbn [parsedOr];
    replace (limit =? 0) with false by (symmetry; apply Z.eqb_neq; lia); auto.
Qed.

Lemma resizer_negative_limit_witness :
  calculateCompressionSize (limitedSession (Some (-5)) None)
  = {| width := 1; height := 1 |}.
Proof.
  apply (resizer_negative_limit (limitedSession (Some (-5)) None) photo 0 0
           eq_refl eq_refl eq_refl).
  exists (-5); split; [lia | left; reflexivity].
Defined.

(** ** Compression: the shortcut, the badge and the reset *)

Section Shortcut.

Variable toBlob : Canvas -> Z -> BlobResult.
Variables (app : Imagify) (img : Image).
Hypothesis loaded : originalImage app = Some img.

Let natural : Size :=
  {| width := naturalWidth img; height := naturalHeight img |}.

Lemma isResized_false_iff :
  negb (width (calculateCompressionSize app) =? naturalWidth img)
  || negb (height (calculateCompressionSize app) =? naturalHeight img) = false
  <-> calculateCompressionSize app = natural.
Proof.
  unfold natural; destruct (calculateCompressionSize app) as [w h]; cbn [width height].
  rewrite orb_false_iff, !negb_false_iff, !Z.eqb_eq.
  split; [intros [-> ->]; reflexivity | intros H; injection H; auto].
Qed.

Lemma compressImage_shortcut :
  currentQuality app = 100 -> calculateCompressionSize app = natural ->
  compressImage toBlob app = UsedOriginal (originalFile app).
Proof.
  intros Hq Hsize; unfold compressImage; rewrite loaded.
  rewrite (target_nonzero app img loaded).
  apply isResized_false_iff in Hsize; rewrite Hsize, Hq; reflexivity.
Qed.

Lemma compressImage_encodes_otherwise :
  currentQuality app <> 100 \/ calculateCompressionSize app <> natural ->
  let sz := calculateCompressionSize app in
  let flatten := match originalFile app with
                 | Some f => isPng f
                 | None => false
                 end in
  let tempCanvas := prepareCanvas flatten img (width sz) (height sz) in
  compressImage toBlob app
  = Encoded {| encodedCanvas := tempCanvas; encodedQuality := currentQuality app |}
            (toBlob tempCanvas (currentQuality app)).
Proof.
  intros Hnot; cbv zeta; unfold compressImage; rewrite loaded.
  rewrite (target_nonzero app img loaded).
  replace ((currentQuality app =? 100)
           && negb (negb (width (calculateCompressionSize app) =? naturalWidth img)
                    || negb (height (calculateCompressionSize app) =? naturalHeight img)))
    with false; [reflexivity |].
  symmetry; apply andb_false_iff.
  destruct Hnot as [Hq | Hsize]; [left; apply Z.eqb_neq; exact Hq |].
  right; apply negb_false_iff.
  destruct (_ || _) eqn:E; [reflexivity |].
  apply isResized_false_iff in E; contradiction.
Qed.

End Shortcut.

(** X7. With an image loaded, [compressImage] reuses the uploaded file,
    without any encoder call, exactly when the quality is 100 and the target
    size is the natural size, which unset limits at quality 100 guarantee; in
    every other case it makes one encoder call, at the target size and the
    slider quality.  The best-quality badge is displayed after the first
    case; after an encoder call it is hidden when the encoder gave a blob,
    and left as it was when the encoder gave [null] or failed. *)
Theorem compress_shortcut_iff
        (toBlob : Canvas -> Z -> BlobResult) (app : Imagify) (img : Image)
        (Hloaded : originalImage app = Some img)
        (Hwidth : 0 < naturalWidth img)
        (Hheight : 0 < naturalHeight img) :
  let natural := {| width := naturalWidth img; height := naturalHeight img |} in
  let target := calculateCompressionSize app in
  let shortcut := currentQuality app = 100 /\ target = natural in
  (shortcut ->
   compressImage toBlob app = UsedOriginal (originalFile app)
   /\ forall displayed,
        bestQualityBadge displayed (compressImage toBlob app) = true)
  /\ (~ shortcut ->
      exists call,
        compressImage toBlob app
        = Encoded call (toBlob (encodedCanvas call) (encodedQuality call))
        /\ encodedQuality call = currentQuality app
        /\ canvasWidth (encodedCanvas call) = width target
        /\ canvasHeight (encodedCanvas call) = height target
        /\ forall displayed,
             bestQualityBadge displayed (compressImage toBlob app)
             = match toBlob (encodedCanvas call) (encodedQuality call) with
               | Blob _ => false
               | NullBlob => displayed
               | Threw => displayed
               end)
  /\ (currentQuality app = 100 ->
      unconstrained (maxWidthInput app) (naturalWidth img) = true ->
      unconstrained (maxHeightInput app) (naturalHeight img) = true ->
      compressImage toBlob app = UsedOriginal (originalFile app)).
Proof.
  cbv zeta.
  assert (Hdec : (currentQuality app = 100
                  /\ calculateCompressionSize app
                     = {| width := naturalWidth img; height := naturalHeight img |})
                 \/ (currentQuality app <> 100
                     \/ calculateCompressionSize app
                        <> {| width := naturalWidth img; height := naturalHeight img |})).
  { destruct (Z.eq_dec (currentQuality app) 100) as [Hq | Hq]; [| right; left; exact Hq].
    destruct (calculateCompressionSize app) as [w h].
    destruct (Z.eq_dec w (naturalWidth img)) as [-> | Hw];
      [| right; right; intros H; injection H; intros; contradiction].
    destruct (Z.eq_dec h (naturalHeight img)) as [-> | Hh];
      [left; split; [exact Hq | reflexivity]
      | right; right; intros H; injection H; intros; contradiction]. }
  split; [| split].
  - intros [Hq Hsize].
    rewrite (compressImage_shortcut toBlob app img Hloaded Hq Hsize).
    split; reflexivity.
  - intros Hnot.
    assert (Hno : currentQuality app <> 100
                  \/ calculateCompressionSize app
                     <> {| width := naturalWidth img; height := naturalHeight img |})
      by (destruct Hdec as [Hyes | Hno]; [contradiction | exact Hno]).
    pose proof (compressImage_encodes_otherwise toBlob app img Hloaded Hno) as He.
    cbv zeta in He; eexists; split; [exact He |].
    rewrite He; cbn [encodedQuality encodedCanvas].
    split; [reflexivity |].
    split; [unfold prepareCanvas; destruct (match originalFile app with
                                            | Some f => isPng f
                                            | None => false
                                            end); reflexivity |].
    split; [unfold prepareCanvas; destruct (match originalFile app with
                                            | Some f => isPng f
                                            | None => false
                                            end); reflexivity |].
    intros displayed; unfold bestQualityBadge; cbn [previewBlob].
    destruct (toBlob _ _); reflexivity.
  - intros Hq Hw Hh.
    apply (compressImage_shortcut toBlob app img Hloaded Hq).
    destruct img as [nw nh content]; cbn [naturalWidth naturalHeight] in *.
    apply (calculateCompressionSize_id nw nh Hwidth Hheight app content Hloaded Hw Hh).
Qed.

(** Scenario A of the specification: 800x600, no limits, quality 100. *)
Lemma compress_shortcut_iff_witness :
  compressImage dipAt80 untouched
  = UsedOriginal (Some {| type := "image/jpeg"; size := 50000 |})
  /\ bestQualityBadge false (compressImage dipAt80 untouched) = true.
Proof.
  destruct (compress_shortcut_iff dipAt80 untouched photo eq_refl eq_refl eq_refl)
    as (_ & _ & Hunset).
  pose proof (Hunset eq_refl eq_refl eq_refl) as Hfile.
  split; [exact Hfile | rewrite Hfile; reflexivity].
Defined.

(** X8. A reset that is not refused (the application is not busy) sets the
    quality to 100 and clears both limits; with an image of positive size
    loaded, the compression it starts reuses the uploaded file and the
    highlight is recomputed at the natural size.  A busy application refuses
    the reset. *)
Theorem reset_restores_original
        (toBlob : Canvas -> Z -> BlobResult) (app : Imagify) (img : Image)
        (Hloaded : originalImage app = Some img)
        (Hwidth : 0 < naturalWidth img)
        (Hheight : 0 < naturalHeight img) :
  resetToOriginal toBlob true app = None
  /\ exists r,
       resetToOriginal toBlob false app = Some r
       /\ currentQuality (afterReset r) = 100
       /\ calculateCompressionSize (afterReset r)
          = {| width := naturalWidth img; height := naturalHeight img |}
       /\ restarted r = Some (UsedOriginal (originalFile app))
       /\ highlight r = updateDeadZoneHighlight toBlob (afterReset r)
       /\ originalFile (afterReset r) = originalFile app
       /\ originalSize (afterReset r) = originalSize app.
Proof.
  split; [reflexivity |].
  unfold resetToOriginal; cbn [originalImage]; rewrite Hloaded.
  eexists; split; [reflexivity |].
  cbn [afterReset restarted highlight currentQuality originalFile originalSize].
  set (app' := {| originalImage := Some img; originalFile := originalFile app;
                  originalSize := originalSize app; currentQuality := 100;
                  maxWidthInput := None; maxHeightInput := None |}).
  assert (Hsize : calculateCompressionSize app'
                  = {| width := naturalWidth img; height := naturalHeight img |}).
  { destruct img as [nw nh content]; cbn [naturalWidth naturalHeight] in *.
    apply (calculateCompressionSize_id nw nh Hwidth Hheight app' content eq_refl);
      reflexivity. }
  repeat split; try reflexivity; try exact Hsize.
  f_equal; apply (compressImage_shortcut toBlob app' img eq_refl eq_refl Hsize).
Qed.

Lemma reset_restores_original_witness :
  exists r,
    resetToOriginal dipAt80 false (limitedSession (Some 400) None) = Some r
    /\ restarted r = Some (UsedOriginal (Some {| type := "image/jpeg"; size := 50000 |})).
Proof.
  destruct (reset_restores_original dipAt80 (limitedSession (Some 400) None) photo
              eq_refl eq_refl eq_refl) as (_ & r & Hr & _ & _ & Hc & _).
  exists r; split; [exact Hr | exact Hc].
Defined.

(** ** Size metrics *)

Section SizeMetrics.

Variables originalSize currentSize : Z.
Hypothesis original_pos : 0 < originalSize.
Hypothesis current_nonneg : 0 <= currentSize.

Let reduction : R :=
  Rmax 0 (IZR (originalSize - currentSize) / IZR originalSize * 100).

Lemma reduction_value :
  (IZR (originalSize - currentSize) / IZR originalSize * 100
   = 100 - 100 * IZR currentSize / IZR originalSize)%R.
Proof.
  assert (0 < IZR originalSize)%R by (apply IZR_lt; exact original_pos).
  rewrite minus_IZR; field; lra.
Qed.

Lemma reduction_range : (0 <= reduction <= 100)%R.
Proof.
  unfold reduction; split; [apply Rmax_l |].
  apply Rmax_lub; [lra |].
  rewrite reduction_value.
  assert (0 < IZR originalSize)%R by (apply IZR_lt; exact original_pos).
  assert (0 <= IZR currentSize)%R by (apply IZR_le; exact current_nonneg).
  assert (0 <= 100 * IZR currentSize / IZR originalSize)%R
    by (apply Rmult_le_pos; [lra | left; apply Rinv_0_lt_compat; assumption]).
  lra.
Qed.

Lemma reduction_zero_iff : reduction = 0%R <-> originalSize <= currentSize.
Proof.
  assert (Hpos : (0 < IZR originalSize)%R) by (apply IZR_lt; exact original_pos).
  unfold reduction; split.
  - intros Hzero.
    destruct (Z.le_gt_cases originalSize currentSize) as [Hle | Hgt]; [exact Hle |].
    exfalso.
    assert (Hdiff : (0 < IZR (originalSize - currentSize))%R) by (apply IZR_lt; lia).
    assert (0 < IZR (originalSize - currentSize) / IZR originalSize * 100)%R.
    { apply Rmult_lt_0_compat; [| lra].
      apply Rdiv_lt_0_compat; assumption. }
    pose proof (Rmax_r 0 (IZR (originalSize - currentSize) / IZR originalSize * 100)).
    lra.
  - intros Hle; apply Rmax_left.
    assert (Hdiff : (IZR (originalSize - currentSize) <= 0)%R) by (apply IZR_le; lia).
    assert (0 < / IZR originalSize)%R by (apply Rinv_0_lt_compat; exact Hpos).
    unfold Rdiv; nra.
Qed.

End SizeMetrics.

(** X9. Whenever [calculateMetrics] reports (an image and a file are loaded
    and the compared canvas is not empty), the quality numbers are in range,
    PSNR in [0, 150) and SSIM in [0, 1], and for a positive original size and
    a compressed size of at least 0: the size reduction is a percentage in
    [0, 100], it is 0 exactly when the compressed blob is not smaller than
    the original, and the compression ratio is positive; for a non-empty
    blob the ratio is above 1 exactly when the reduction is above 0, and at
    least 1 when the blob is not larger than the original; for an empty blob
    the ratio is 1 and the reduction 100. *)
Theorem metrics_in_range
        (app : Imagify) (original compressed : ImageData.t) (currentSize : Z)
        (img : Image) (file : File)
        (Hloaded : originalImage app = Some img)
        (Hselected : originalFile app = Some file)
        (Hcanvas : ImageData.width compressed <> 0%nat
                   /\ ImageData.height compressed <> 0%nat)
        (Hwfo : wellFormed original = true)
        (Hwfc : wellFormed compressed = true)
        (Hsize : sameSize original compressed = true)
        (Horiginal : 0 < originalSize app)
        (Hcurrent : 0 <= currentSize) :
  exists m,
    calculateMetrics app original compressed currentSize = Some m
    /\ (0 <= psnr m < 150)%R
    /\ (0 <= ssim m <= 1)%R
    /\ (0 <= sizeReduction m <= 100)%R
    /\ (sizeReduction m = 0%R <-> originalSize app <= currentSize)
    /\ (0 < compressionRatio m)%R
    /\ (0 < currentSize ->
        ((1 < compressionRatio m)%R <-> (0 < sizeReduction m)%R)
        /\ (currentSize <= originalSize app -> (1 <= compressionRatio m)%R))
    /\ (currentSize = 0 ->
        compressionRatio m = 1%R /\ sizeReduction m = 100%R).
Proof.
  unfold calculateMetrics; rewrite Hloaded, Hselected.
  destruct Hcanvas as [Hw Hh].
  apply Nat.eqb_neq in Hw, Hh; rewrite Hw, Hh; cbn [orb].
  apply Z.ltb_lt in Horiginal; rewrite Horiginal; cbn [andb].
  apply Z.ltb_lt in Horiginal.
  eexists; split; [reflexivity |].
  cbn [psnr ssim compressionRatio sizeReduction].
  assert (HoR : (0 < IZR (originalSize app))%R) by (apply IZR_lt; exact Horiginal).
  destruct (psnrSums_nonneg original compressed Hwfo) as [Herr Hcount].
  pose proof (reduction_range (originalSize app) currentSize Horiginal Hcurrent)
    as Hrange.
  pose proof (reduction_zero_iff (originalSize app) currentSize Horiginal) as Hzero.
  cbv zeta in Hrange, Hzero.
  split; [| split; [| split; [| split; [| split; [| split]]]]].
  - unfold calculatePSNR; split;
      [apply psnrOfSums_nonneg | apply psnrOfSums_lt_150; assumption].
  - apply calculateSSIM_range.
  - exact Hrange.
  - exact Hzero.
  - destruct (Z.ltb_spec 0 currentSize) as [Hpos | _]; [| lra].
    apply Rdiv_lt_0_compat; [exact HoR | apply IZR_lt; exact Hpos].
  - intros Hpos.
    replace (0 <? currentSize) with true by (symmetry; apply Z.ltb_lt; exact Hpos).
    assert (HcR : (0 < IZR currentSize)%R) by (apply IZR_lt; exact Hpos).
    split; [| intros Hle; apply (quotient_ge_1 (originalSize app) currentSize Hpos Hle)].
    revert Hrange Hzero;
      generalize (Rmax 0 (IZR (originalSize app - currentSize)
                          / IZR (originalSize app) * 100)).
    intros reduction Hrange Hzero; split.
    + intros Hratio.
      assert (Hlt : currentSize < originalSize app).
      { apply lt_IZR.
        apply Rmult_lt_reg_r with (/ IZR currentSize)%R;
          [apply Rinv_0_lt_compat; exact HcR |].
        rewrite Rinv_r by lra; exact Hratio. }
      destruct (Req_dec reduction 0) as [H0 | H0]; [apply Hzero in H0; lia | lra].
    + intros Hred.
      assert (Hlt : currentSize < originalSize app).
      { destruct (Z.lt_ge_cases currentSize (originalSize app)) as [H | H]; [exact H |].
        apply Hzero in H; lra. }
      apply IZR_lt in Hlt.
      apply Rmult_lt_reg_r with (IZR currentSize); [exact HcR |].
      unfold Rdiv; rewrite Rmult_assoc, Rinv_l by lra; lra.
  - intros ->; cbn [Z.ltb Z.compare]; split; [reflexivity |].
    rewrite Z.sub_0_r, Rmax_right.
    + field; lra.
    + unfold Rdiv; rewrite Rinv_r by lra; lra.
Qed.

(** A 50,000-byte upload compressed to 25,000 bytes. *)
Lemma metrics_in_range_witness :
  exists m,
    calculateMetrics (session "image/jpeg") (onePixel 10) (onePixel 13) 25000 = Some m
    /\ (1 <= compressionRatio m)%R
    /\ (0 <= sizeReduction m <= 100)%R.
Proof.
  destruct (metrics_in_range (session "image/jpeg") (onePixel 10) (onePixel 13) 25000
              photo {| type := "image/jpeg"; size := 50000 |}
              eq_refl eq_refl (conj (Nat.neq_succ_0 0) (Nat.neq_succ_0 0))
              eq_refl eq_refl eq_refl eq_refl)
    as (m & Hm & _ & _ & Hred & _ & _ & Hlink & _).
  - discriminate.
  - exists m; split; [exact Hm | split; [| exact Hred]].
    destruct Hlink as [_ Hge]; [reflexivity |].
    apply Hge; discriminate.
Defined.

(** ** Size formatter and upload check *)

Lemma ln_1024_pos : (0 < ln 1024)%R.
Proof. rewrite <- ln_1; apply ln_increasing; lra. Qed.

Lemma pow_1024_IZR (e : nat) : IZR (1024 ^ Z.of_nat e) = (1024 ^ e)%R.
Proof. symmetry; apply pow_IZR. Qed.

(** [Math.floor(Math.log(bytes) / Math.log(k))] is the exponent of the
    largest power of 1024 not above [bytes]. *)
Lemma floor_log_1024 (bytes : Z) (e : nat) :
  1024 ^ Z.of_nat e <= bytes < 1024 ^ Z.of_nat (S e) ->
  Math_floor (ln (IZR bytes) / ln (IZR 1024)) = Z.of_nat e.
Proof.
  intros [Hlo Hhi]; unfold Math_floor; apply Int_part_unique.
  pose proof ln_1024_pos as Hk.
  assert (Hpow : forall n : nat, (0 < 1024 ^ n)%R) by (intros n; apply pow_lt; lra).
  apply IZR_le in Hlo; apply IZR_lt in Hhi; rewrite pow_1024_IZR in Hlo, Hhi.
  assert (Hpos : (0 < IZR bytes)%R) by (specialize (Hpow e); lra).
  rewrite <- INR_IZR_INZ.
  assert (Hln_lo : (INR e * ln 1024 <= ln (IZR bytes))%R).
  { rewrite <- ln_pow by lra.
    destruct Hlo as [Hlt | Heq]; [left; apply ln_increasing; auto | right; f_equal; exact Heq]. }
  assert (Hln_hi : (ln (IZR bytes) < INR (S e) * ln 1024)%R)
    by (rewrite <- ln_pow by lra; apply ln_increasing; assumption).
  rewrite S_INR in Hln_hi.
  split.
  - apply Rmult_le_reg_r with (ln 1024); [exact Hk |].
    unfold Rdiv; rewrite Rmult_assoc, Rinv_l by lra; lra.
  - apply Rmult_lt_reg_r with (ln 1024); [exact Hk |].
    unfold Rdiv; rewrite Rmult_assoc, Rinv_l by lra; lra.
Qed.

Lemma toFixed1_quotient (bytes : Z) (e : nat) :
  toFixed1 (IZR bytes / powerRZ (IZR 1024) (Z.of_nat e))
  = (20 * bytes + 1024 ^ Z.of_nat e) / (2 * 1024 ^ Z.of_nat e).
Proof.
  unfold toFixed1; rewrite <- pow_powerRZ, <- pow_1024_IZR.
  assert (Hp : 0 < 1024 ^ Z.of_nat e) by (apply Z.pow_pos_nonneg; lia).
  replace (IZR bytes / IZR (1024 ^ Z.of_nat e) * 10)%R
    with (IZR (10 * bytes) / IZR (1024 ^ Z.of_nat e))%R
    by (rewrite mult_IZR; unfold Rdiv; ring).
  rewrite (Math_round_quotient _ _ Hp); f_equal; lia.
Qed.

Lemma formatFileSize_power (bytes : Z) (e : nat) :
  1024 ^ Z.of_nat e <= bytes < 1024 ^ Z.of_nat (S e) ->
  formatFileSize bytes = formatWithUnit e bytes.
Proof.
  intros Hrange; unfold formatFileSize, formatWithUnit.
  assert (Hp : 0 < 1024 ^ Z.of_nat e) by (apply Z.pow_pos_nonneg; lia).
  replace (bytes <=? 0) with false by (symmetry; apply Z.leb_gt; lia).
  cbv zeta; rewrite (floor_log_1024 bytes e Hrange), toFixed1_quotient.
  reflexivity.
Qed.

(** X10. [formatFileSize] prints ["0 B"] for a size of 0 or less.  A size
    below 1024^3 bytes, between [1024^e] and [1024^(e+1)] with [e] at most 2,
    is printed as the size divided by [1024^e], rounded to one decimal (half
    up, a zero decimal dropped), a number from 1 to 1024 inclusive, followed
    by the unit number [e] of B, KB, MB.  In that range the quotient of the
    two logarithms is far enough from the next integer for its rounding not
    to matter. *)
Theorem formatFileSize_units (bytes : Z) (e : nat) :
  let tenths := (20 * bytes + 1024 ^ Z.of_nat e) / (2 * 1024 ^ Z.of_nat e) in
  (bytes <= 0 -> formatFileSize bytes = "0 B"%string)
  /\ ((e <= 2)%nat -> 1024 ^ Z.of_nat e <= bytes < 1024 ^ Z.of_nat (S e) ->
      formatFileSize bytes
      = (showTenths tenths ++ " " ++ sizeUnit (Z.of_nat e))%string
      /\ 10 <= tenths <= 10240
      /\ nth_error ["B"; "KB"; "MB"]%string e = Some (sizeUnit (Z.of_nat e))).
Proof.
  cbv zeta; split.
  - intros Hle; unfold formatFileSize.
    replace (bytes <=? 0) with true by (symmetry; apply Z.leb_le; exact Hle).
    reflexivity.
  - intros He Hrange.
    split; [apply (formatFileSize_power bytes e Hrange) |].
    assert (Hp : 0 < 1024 ^ Z.of_nat e) by (apply Z.pow_pos_nonneg; lia).
    assert (Hnext : 1024 ^ Z.of_nat (S e) = 1024 * 1024 ^ Z.of_nat e)
      by (rewrite Nat2Z.inj_succ, Z.pow_succ_r by lia; reflexivity).
    split.
    + rewrite Hnext in Hrange; clear Hnext.
      revert Hp Hrange; generalize (1024 ^ Z.of_nat e); intros p Hp Hrange.
      split.
      * apply Z.div_le_lower_bound; lia.
      * apply Z.lt_succ_r, Z.div_lt_upper_bound; lia.
    + destruct e as [| [| [| e]]]; [reflexivity | reflexivity | reflexivity | lia].
Qed.

(** 1536 bytes are one and a half KB; one byte short of a MB prints as
    1024 KB. *)
Lemma formatFileSize_units_witness :
  formatFileSize 1536 = "1.5 KB"%string
  /\ formatFileSize 1048575 = "1024 KB"%string.
Proof.
  split.
  - destruct (formatFileSize_units 1536 1) as [_ H].
    destruct H as [H _];
      [repeat constructor | vm_compute; split; [discriminate | reflexivity] |].
    rewrite H; vm_compute; reflexivity.
  - destruct (formatFileSize_units 1048575 1) as [_ H].
    destruct H as [H _];
      [repeat constructor | vm_compute; split; [discriminate | reflexivity] |].
    rewrite H; vm_compute; reflexivity.
Defined.

(** X11. An upload is taken exactly when its type starts with [image/] and
    its size is at most 10,485,760 bytes (that size itself is taken); the
    size of a taken, non-empty file is always printed in B, KB or MB. *)
Theorem upload_check (f : File) :
  (handleFileSelect (Some f) = Taken f
   <-> String.prefix "image/" (type f) = true /\ size f <= 10485760)
  /\ (handleFileSelect (Some f) = Taken f -> 0 < size f ->
      exists e, (e <= 2)%nat /\ formatFileSize (size f) = formatWithUnit e (size f)).
Proof.
  assert (Hiff : handleFileSelect (Some f) = Taken f
                 <-> String.prefix "image/" (type f) = true /\ size f <= 10485760).
  { unfold handleFileSelect.
    destruct (String.prefix "image/" (type f)); cbn [negb].
    - change (10 * 1024 * 1024) with 10485760.
      destruct (Z.ltb_spec 10485760 (size f)) as [Hbig | Hok].
      + split; [discriminate | intros [_ H]; lia].
      + split; [intros _; split; [reflexivity | exact Hok] | reflexivity].
    - split; [discriminate | intros [H _]; discriminate H]. }
  split; [exact Hiff |].
  intros Htaken Hpos; apply Hiff in Htaken; destruct Htaken as [_ Hmax].
  destruct (Z.lt_ge_cases (size f) 1024) as [H0 | H0];
    [exists 0%nat; split; [lia | apply formatFileSize_power; simpl; lia] |].
  destruct (Z.lt_ge_cases (size f) (1024 * 1024)) as [H1 | H1];
    [exists 1%nat; split; [lia | apply formatFileSize_power; simpl; lia] |].
  exists 2%nat; split; [lia | apply formatFileSize_power; simpl; lia].
Qed.

Lemma upload_check_witness :
  handleFileSelect (Some {| type := "image/webp"; size := 10485760 |})
  = Taken {| type := "image/webp"; size := 10485760 |}.
Proof.
  apply (proj1 (upload_check {| type := "image/webp"; size := 10485760 |})).
  split; [reflexivity | discriminate].
Defined.

(** ** Download *)

Lemma splitDots_nonempty (s : string) : splitDots s <> [].
Proof.
  destruct s as [| c rest]; cbn [splitDots]; [discriminate |].
  destruct (Ascii.eqb c "."); [discriminate |].
  destruct (splitDots rest); discriminate.
Qed.

(** Joining what was split gives the name back. *)
Lemma joinDots_splitDots (s : string) : joinDots (splitDots s) = s.
Proof.
  induction s as [| c rest IH]; [reflexivity |].
  cbn [splitDots]; destruct (Ascii.eqb_spec c ".") as [-> | Hc].
  - pose proof (splitDots_nonempty rest) as Hne.
    destruct (splitDots rest) as [| part parts]; [contradiction |].
    change (joinDots (EmptyString :: part :: parts))
      with (String "." (joinDots (part :: parts))).
    rewrite IH; reflexivity.
  - pose proof (splitDots_nonempty rest) as Hne.
    destruct (splitDots rest) as [| part parts]; [contradiction |].
    destruct parts as [| next parts].
    + cbn [joinDots] in *; rewrite IH; reflexivity.
    + change (joinDots (String c part :: next :: parts))
        with (String c (part ++ "." ++ joinDots (next :: parts))).
      change (joinDots (part :: next :: parts))
        with (part ++ "." ++ joinDots (next :: parts))%string in IH.
      rewrite IH; reflexivity.
Qed.

Lemma splitDots_dotFree (s : string) : dotFree s = true -> splitDots s = [s].
Proof.
  induction s as [| c rest IH]; [reflexivity |].
  cbn [dotFree splitDots]; intros H; apply andb_true_iff in H; destruct H as [Hc Hrest].
  apply negb_true_iff in Hc; rewrite Hc, (IH Hrest); reflexivity.
Qed.

Lemma splitDots_app (a b : string) :
  splitDots (a ++ "." ++ b) = splitDots a ++ splitDots b.
Proof.
  induction a as [| c rest IH]; [reflexivity |].
  change ((String c rest ++ "." ++ b)%string) with (String c (rest ++ "." ++ b)).
  cbn [splitDots]; rewrite IH.
  destruct (Ascii.eqb c "."); [reflexivity |].
  pose proof (splitDots_nonempty rest) as Hne.
  destruct (splitDots rest) as [| part parts]; [contradiction | reflexivity].
Qed.

(** A name with an extension splits at its last dot. *)
Lemma nameParts_extension (stem ext : string) :
  stem <> EmptyString -> dotFree ext = true ->
  nameParts (stem ++ "." ++ ext) = (stem, ext).
Proof.
  intros Hstem Hext; unfold nameParts.
  rewrite splitDots_app, (splitDots_dotFree ext Hext).
  pose proof (splitDots_nonempty stem) as Hne.
  replace (1 <? length (splitDots stem ++ [ext]))%nat with true.
  - rewrite last_last, removelast_last, joinDots_splitDots.
    destruct (String.eqb_spec stem EmptyString); [contradiction | reflexivity].
  - symmetry; apply Nat.ltb_lt; rewrite length_app; cbn [length].
    destruct (splitDots stem); [contradiction | cbn [length]; lia].
Qed.

(** A name without a dot keeps its whole text and gets the extension
    [file]; an empty one becomes [download]. *)
Lemma nameParts_plain (name : string) :
  dotFree name = true ->
  nameParts name
  = (if String.eqb name "" then "download"%string else name, "file"%string).
Proof.
  intros Hfree; unfold nameParts; rewrite (splitDots_dotFree name Hfree).
  reflexivity.
Qed.

(** X12. [downloadCompressed] fails only when there is no preview blob or
    no uploaded file; otherwise it saves either the preview blob or the
    uploaded file, and what it saves is never larger than the uploaded file
    unless the quality is 100; the warning is given exactly when a fresh
    preview blob is larger than the upload and the quality is not 100, and
    then the upload is saved. *)
Theorem download_never_larger (st : Download.State) :
  match Download.downloadCompressed st with
  | Download.Failed _ =>
      Download.compressedBlob st = None \/ Download.originalFile st = None
  | Download.Saved blobToDownload fileName warning =>
      exists compressed original,
        Download.compressedBlob st = Some compressed
        /\ Download.originalFile st = Some original
        /\ (blobToDownload = compressed \/ blobToDownload = Download.blob original)
        /\ (Download.size blobToDownload <= Download.size (Download.blob original)
            \/ Download.currentQuality st = 100)
        /\ (warning <> None <->
            Download.same compressed (Download.blob original) = false
            /\ Download.size (Download.blob original) < Download.size compressed
            /\ Download.currentQuality st <> 100)
        /\ (warning <> None -> blobToDownload = Download.blob original)
  end.
Proof.
  unfold Download.downloadCompressed.
  destruct (Download.compressedBlob st) as [compressed |]; [| left; reflexivity].
  destruct (Download.originalFile st) as [original |]; [| right; reflexivity].
  destruct (nameParts (Download.name original)) as [originalBaseName originalExt].
  destruct (Download.same compressed (Download.blob original)) eqn:Hsame.
  - exists compressed, original.
    split; [reflexivity |]. split; [reflexivity |].
    split; [right; reflexivity |]. split; [left; lia |].
    split; [split; [intros H; contradiction | intros [H _]; congruence] |].
    intros H; contradiction.
  - destruct (Z.ltb_spec (Download.size (Download.blob original))
                         (Download.size compressed)) as [Hlarger | Hfits];
      destruct (Z.eqb_spec (Download.currentQuality st) 100) as [Hq | Hq];
      cbn [negb andb]; exists compressed, original;
      (split; [reflexivity |]); (split; [reflexivity |]).
    + split; [left; reflexivity |]. split; [right; exact Hq |].
      split; [split; [intros H; contradiction | intros (_ & _ & H); contradiction] |].
      intros H; contradiction.
    + split; [right; reflexivity |]. split; [left; lia |].
      split; [split; [intros _; auto | intros _; discriminate] |].
      intros _; reflexivity.
    + split; [left; reflexivity |]. split; [left; exact Hfits |].
      split; [split; [intros H; contradiction | intros (_ & H & _); lia] |].
      intros H; contradiction.
    + split; [left; reflexivity |]. split; [left; exact Hfits |].
      split; [split; [intros H; contradiction | intros (_ & H & _); lia] |].
      intros H; contradiction.
Qed.

Lemma download_never_larger_witness :
  exists fileName warning,
    Download.downloadCompressed largerPreview
    = Download.Saved {| Download.id := 1; Download.size := 50000 |} fileName warning
    /\ warning <> None.
Proof.
  pose proof (download_never_larger largerPreview) as H.
  destruct (Download.downloadCompressed largerPreview) as [msg | b fileName warning] eqn:E.
  - destruct H as [H | H]; discriminate H.
  - destruct H as (compressed & original & Hc & Ho & _ & _ & Hw & Horig).
    injection Hc as <-; injection Ho as <-.
    assert (Hwarn : warning <> None)
      by (apply Hw; split; [reflexivity | split; [reflexivity | discriminate]]).
    exists fileName, warning; split; [| exact Hwarn].
    rewrite (Horig Hwarn); reflexivity.
Defined.

(** X13. Download names keep the uploaded name's parts: for an upload named
    [stem.ext], with a non-empty stem and no dot in [ext], the upload is
    saved as [stem_original.ext] and a preview blob as
    [stem_compressed_q<quality>.jpg]; an upload whose name has no dot is
    saved with the extension [file]. *)
Theorem download_file_names
        (st : Download.State) (compressed : Download.Blob)
        (original : Download.NamedFile) (stem ext : string)
        (Hcompressed : Download.compressedBlob st = Some compressed)
        (Horiginal : Download.originalFile st = Some original)
        (Hstem : stem <> EmptyString)
        (Hext : dotFree ext = true) :
  (Download.name original = (stem ++ "." ++ ext)%string ->
   exists blobToDownload warning,
     (Download.downloadCompressed st
      = Download.Saved blobToDownload (stem ++ "_original." ++ ext) warning
      /\ blobToDownload = Download.blob original)
     \/ (Download.downloadCompressed st
         = Download.Saved blobToDownload
             (stem ++ "_compressed_q" ++ showZ (Download.currentQuality st) ++ ".jpg")
             warning
         /\ blobToDownload = compressed))
  /\ (Download.name original = stem -> dotFree stem = true ->
      Download.same compressed (Download.blob original) = true ->
      Download.downloadCompressed st
      = Download.Saved (Download.blob original) (stem ++ "_original.file") None).
Proof.
  split.
  - intros Hname; unfold Download.downloadCompressed.
    rewrite Hcompressed, Horiginal, Hname, (nameParts_extension stem ext Hstem Hext).
    destruct (Download.same compressed (Download.blob original));
      [do 2 eexists; left; split; reflexivity |].
    destruct (_ && _); do 2 eexists; [left | right]; split; reflexivity.
  - intros Hname Hfree Hsame; unfold Download.downloadCompressed.
    rewrite Hcompressed, Horiginal, Hname, (nameParts_plain stem Hfree), Hsame.
    destruct (String.eqb_spec stem ""); [contradiction | reflexivity].
Qed.

Lemma download_file_names_witness :
  exists blobToDownload fileName warning,
    Download.downloadCompressed largerPreview
    = Download.Saved blobToDownload fileName warning
    /\ (fileName = "holiday.v2_original.png"%string
        \/ fileName = "holiday.v2_compressed_q95.jpg"%string).
Proof.
  destruct (download_file_names largerPreview
              {| Download.id := 2; Download.size := 60000 |}
              {| Download.blob := {| Download.id := 1; Download.size := 50000 |};
                 Download.name := "holiday.v2.png" |}
              "holiday.v2" "png" eq_refl eq_refl) as [H _];
    [discriminate | reflexivity |].
  destruct (H eq_refl) as (b & warning & [[Hd _] | [Hd _]]).
  - exists b, "holiday.v2_original.png"%string, warning.
    split; [exact Hd | left; reflexivity].
  - exists b, "holiday.v2_compressed_q95.jpg"%string, warning.
    split; [exact Hd | right; reflexivity].
Defined.

(** ** Metric engine: reads, exclusions and order *)

Lemma windowStarts_fit (n x : nat) :
  In x (windowStarts n) -> (x + WINDOW_SIZE <= n)%nat.
Proof.
  unfold windowStarts, WINDOW_SIZE; intros Hin.
  apply in_map_iff in Hin; destruct Hin as (k & <- & Hk).
  apply in_seq in Hk.
  pose proof (Nat.div_mod_eq n 8) as Hdm.
  lia.
Qed.

Lemma windowStarts_length (n : nat) : length (windowStarts n) = (n / WINDOW_SIZE)%nat.
Proof. unfold windowStarts; rewrite length_map, length_seq; reflexivity. Qed.

Lemma windowCorners_length (width height : nat) :
  length (windowCorners width height)
  = ((width / WINDOW_SIZE) * (height / WINDOW_SIZE))%nat.
Proof.
  unfold windowCorners; rewrite <- (windowStarts_length height).
  induction (windowStarts height) as [| y rest IH];
    [cbn [flat_map length]; rewrite Nat.mul_0_r; reflexivity |].
  cbn [flat_map length]; rewrite length_app, length_map, windowStarts_length, IH.
  generalize (width / WINDOW_SIZE)%nat; intros q; nia.
Qed.

Lemma windowCorners_fit (width height x y : nat) :
  In (x, y) (windowCorners width height) ->
  (x + WINDOW_SIZE <= width /\ y + WINDOW_SIZE <= height)%nat.
Proof.
  unfold windowCorners; intros Hin.
  apply in_flat_map in Hin; destruct Hin as (y' & Hy & Hin).
  apply in_map_iff in Hin; destruct Hin as (x' & Heq & Hx).
  injection Heq as -> ->.
  split; apply windowStarts_fit; assumption.
Qed.

Lemma windowIndices_fit (width height x y index : nat) :
  (x + WINDOW_SIZE <= width)%nat -> (y + WINDOW_SIZE <= height)%nat ->
  In index (windowIndices width x y) ->
  (index + 3 < 4 * width * height)%nat.
Proof.
  unfold windowIndices, WINDOW_SIZE; intros Hx Hy Hin.
  apply in_flat_map in Hin; destruct Hin as (j & Hj & Hin).
  apply in_map_iff in Hin; destruct Hin as (i & <- & Hi).
  apply in_seq in Hi; apply in_seq in Hj.
  assert (Hrow : ((y + j) * width + (x + i) < height * width)%nat) by nia.
  lia.
Qed.

Lemma pixelOffsets_fit (n i : nat) : In i (pixelOffsets (4 * n)) -> (i + 3 < 4 * n)%nat.
Proof.
  rewrite pixelOffsets_exact; intros Hin.
  apply in_map_iff in Hin; destruct Hin as (k & <- & Hk).
  apply in_seq in Hk; lia.
Qed.

(** X14. On a well-formed image no loop of the metric engine or of the heat
    map reads outside the buffer: every pixel offset [i] of the PSNR and
    heat-map loops has [i + 3] inside it, and so has every index of every
    SSIM window.  The SSIM windows are the [(width / 8) * (height / 8)] full
    ones; a strip narrower than 8 pixels at the right or bottom edge is in
    no window. *)
Theorem metric_reads_in_bounds
        (img : ImageData.t) (Hwf : wellFormed img = true) :
  let d := ImageData.data img in
  let w := ImageData.width img in
  let h := ImageData.height img in
  (forall i, In i (pixelOffsets (length d)) -> (i + 3 < length d)%nat)
  /\ (forall x y index,
        In (x, y) (windowCorners w h) -> In index (windowIndices w x y) ->
        (x + 8 <= w)%nat /\ (y + 8 <= h)%nat /\ (index + 3 < length d)%nat)
  /\ length (windowCorners w h) = ((w / 8) * (h / 8))%nat.
Proof.
  cbv zeta; pose proof (wellFormed_length img Hwf) as Hlen.
  split; [| split].
  - intros i Hi; rewrite Hlen in *; apply pixelOffsets_fit, Hi.
  - intros x y index Hcorner Hindex.
    destruct (windowCorners_fit _ _ _ _ Hcorner) as [Hx Hy].
    split; [exact Hx |]; split; [exact Hy |].
    rewrite Hlen.
    pose proof (windowIndices_fit _ _ _ _ _ Hx Hy Hindex); lia.
  - apply windowCorners_length.
Qed.

Lemma metric_reads_in_bounds_witness :
  length (windowCorners (ImageData.width (blackImage 20 9))
                        (ImageData.height (blackImage 20 9))) = 2%nat.
Proof.
  destruct (metric_reads_in_bounds (blackImage 20 9) eq_refl) as (_ & _ & H).
  exact H.
Defined.

(** *** PSNR *)

Lemma square_difference_le (x y : Z) :
  0 <= x <= 255 -> 0 <= y <= 255 -> (x - y) ^ 2 <= 255 ^ 2.
Proof.
  intros Hx Hy; rewrite Z.pow_2_r.
  assert (Hd : -255 <= x - y <= 255) by lia.
  revert Hd; generalize (x - y); intros d Hd.
  change (255 ^ 2) with 65025; nia.
Qed.

Lemma squaredError_le (a b : ImageData.t) (i : nat) :
  wellFormed a = true -> wellFormed b = true ->
  squaredError (ImageData.data a) (ImageData.data b) i <= 3 * 255 ^ 2.
Proof.
  intros Ha Hb; unfold squaredError.
  pose proof (square_difference_le _ _ (wellFormed_byte a i Ha) (wellFormed_byte b i Hb)).
  pose proof (square_difference_le _ _ (wellFormed_byte a (i + 1) Ha)
                                   (wellFormed_byte b (i + 1) Hb)).
  pose proof (square_difference_le _ _ (wellFormed_byte a (i + 2) Ha)
                                   (wellFormed_byte b (i + 2) Hb)).
  lia.
Qed.

Lemma sumZ_squaredError_le (a b : ImageData.t) (offsets : list nat) :
  wellFormed a = true -> wellFormed b = true ->
  sumZ (map (squaredError (ImageData.data a) (ImageData.data b)) offsets)
  <= Z.of_nat (length offsets) * (3 * 255 ^ 2).
Proof.
  intros Ha Hb; induction offsets as [| i rest IH]; [cbn; lia |].
  cbn [map sumZ fold_right length].
  fold (sumZ (map (squaredError (ImageData.data a) (ImageData.data b)) rest)).
  pose proof (squaredError_le a b i Ha Hb); lia.
Qed.

Lemma Math_log10_1 : Math_log10 1 = 0%R.
Proof. exact (Math_log10_pow 0). Qed.

(** X15. For well-formed bitmaps the mean squared error never exceeds
    [255^2], so the lower clamp of [calculatePSNR] never acts: whenever some
    pixel is counted and the MSE is not below 1e-10, the result is exactly
    [10 log10(255^2 / MSE)]. *)
Theorem psnr_clamp_never_acts
        (original compressed : ImageData.t)
        (Hwfa : wellFormed original = true)
        (Hwfb : wellFormed compressed = true)
        (Hsize : sameSize original compressed = true)
        (Hcounted : includedOffsets (ImageData.data original) <> [])
        (Hmse : ~ (meanSquaredError (ImageData.data original) (ImageData.data compressed)
                   < 1e-10)%R) :
  let mse := meanSquaredError (ImageData.data original) (ImageData.data compressed) in
  (mse <= 255 ^ 2)%R
  /\ calculatePSNR original compressed = (10 * Math_log10 (255 ^ 2 / mse))%R.
Proof.
  cbv zeta.
  pose proof (sumZ_squaredError_le original compressed
                (includedOffsets (ImageData.data original)) Hwfa Hwfb) as Hsum.
  unfold calculatePSNR, psnrOfSums.
  rewrite (psnrSums_included original compressed Hwfa); cbn [fst snd].
  fold (meanSquaredError (ImageData.data original) (ImageData.data compressed)).
  revert Hmse Hsum; unfold meanSquaredError.
  generalize (sumZ (map (squaredError (ImageData.data original) (ImageData.data compressed))
                        (includedOffsets (ImageData.data original)))).
  assert (Hn : 0 < Z.of_nat (length (includedOffsets (ImageData.data original))))
    by (destruct (includedOffsets (ImageData.data original));
        [contradiction | cbn [length]; lia]).
  revert Hn; generalize (Z.of_nat (length (includedOffsets (ImageData.data original)))).
  intros n Hn sse Hmse Hsum.
  assert (HnR : (0 < IZR (n * 3))%R) by (apply IZR_lt; lia).
  assert (Hle : (IZR sse / IZR (n * 3) <= 255 ^ 2)%R).
  { apply Rmult_le_reg_r with (IZR (n * 3)); [exact HnR |].
    unfold Rdiv; rewrite Rmult_assoc, Rinv_l, Rmult_1_r by lra.
    replace (255 ^ 2)%R with (IZR (255 ^ 2)) by (simpl; lra).
    rewrite <- mult_IZR; apply IZR_le; lia. }
  split; [exact Hle |].
  replace (n =? 0) with false by (symmetry; apply Z.eqb_neq; lia).
  destruct (Rlt_dec (IZR sse / IZR (n * 3)) 1e-10) as [H | _]; [contradiction |].
  apply Rmax_right.
  assert (Hpos : (0 < IZR sse / IZR (n * 3))%R) by lra.
  assert (Hlog : (Math_log10 1 <= Math_log10 (255 ^ 2 / (IZR sse / IZR (n * 3))))%R).
  { apply Math_log10_le; [lra |].
    revert Hpos Hle; generalize (IZR sse / IZR (n * 3))%R; intros m Hpos Hle.
    apply Rmult_le_reg_r with m; [exact Hpos |].
    unfold Rdiv; rewrite Rmult_assoc, Rinv_l by lra; lra. }
  rewrite Math_log10_1 in Hlog; lra.
Qed.

Lemma psnr_clamp_never_acts_witness :
  calculatePSNR (onePixel 10) (onePixel 13)
  = (10 * Math_log10 (255 ^ 2
                      / meanSquaredError (ImageData.data (onePixel 10))
                                         (ImageData.data (onePixel 13))))%R.
Proof.
  apply (psnr_clamp_never_acts (onePixel 10) (onePixel 13) eq_refl eq_refl eq_refl).
  - discriminate.
  - unfold meanSquaredError.
    change (sumZ (map (squaredError (ImageData.data (onePixel 10))
                                    (ImageData.data (onePixel 13)))
                      (includedOffsets (ImageData.data (onePixel 10))))) with 9.
    change (Z.of_nat (length (includedOffsets (ImageData.data (onePixel 10)))) * 3) with 3.
    lra.
Defined.

(** X16. [calculatePSNR] looks at the compressed bitmap only in the R, G, B
    bytes of the pixels whose reference alpha is 255: two compressed bitmaps
    that agree there give the same PSNR, whatever their alpha bytes and
    their other pixels are. *)
Theorem psnr_ignores_uncounted
        (original compressed compressed' : ImageData.t)
        (Hwf : wellFormed original = true)
        (Hagree : forall i, In i (includedOffsets (ImageData.data original)) ->
                    byteAt (ImageData.data compressed) i
                    = byteAt (ImageData.data compressed') i
                    /\ byteAt (ImageData.data compressed) (i + 1)
                       = byteAt (ImageData.data compressed') (i + 1)
                    /\ byteAt (ImageData.data compressed) (i + 2)
                       = byteAt (ImageData.data compressed') (i + 2)) :
  calculatePSNR original compressed = calculatePSNR original compressed'.
Proof.
  unfold calculatePSNR.
  rewrite (psnrSums_included original compressed Hwf),
          (psnrSums_included original compressed' Hwf).
  do 3 f_equal; apply map_ext_in.
  intros i Hi; destruct (Hagree i Hi) as (H0 & H1 & H2).
  unfold squaredError; rewrite H0, H1, H2; reflexivity.
Qed.

Lemma psnr_ignores_uncounted_witness :
  calculatePSNR clearPixel (onePixel 10) = calculatePSNR clearPixel (onePixel 13).
Proof.
  apply (psnr_ignores_uncounted clearPixel (onePixel 10) (onePixel 13) eq_refl).
  intros i Hi; vm_compute in Hi; contradiction.
Defined.

(** X17. Against one reference with at most 51262 counted pixels, a
    compressed bitmap with no smaller total squared error never gets a
    larger PSNR. *)
Theorem psnr_monotone
        (original better worse : ImageData.t)
        (Hwf : wellFormed original = true)
        (Hwfb : wellFormed better = true)
        (Hwfw : wellFormed worse = true)
        (Hcount : Z.of_nat (length (includedOffsets (ImageData.data original))) <= 51262)
        (Herror : fst (psnrSums (ImageData.data original) (ImageData.data better))
                  <= fst (psnrSums (ImageData.data original) (ImageData.data worse))) :
  (calculatePSNR original worse <= calculatePSNR original better)%R.
Proof.
  unfold calculatePSNR.
  destruct (psnrSums_nonneg original better Hwf) as [Hb0 Hbn].
  destruct (psnrSums_nonneg original worse Hwf) as [Hw0 Hwn].
  assert (Hn : snd (psnrSums (ImageData.data original) (ImageData.data better))
               = Z.of_nat (length (includedOffsets (ImageData.data original))))
    by (rewrite (psnrSums_included original better Hwf); reflexivity).
  assert (Hn' : snd (psnrSums (ImageData.data original) (ImageData.data worse))
                = Z.of_nat (length (includedOffsets (ImageData.data original))))
    by (rewrite (psnrSums_included original worse Hwf); reflexivity).
  revert Hb0 Hbn Hw0 Hwn Hn Hn' Herror.
  generalize (psnrSums (ImageData.data original) (ImageData.data better)).
  generalize (psnrSums (ImageData.data original) (ImageData.data worse)).
  intros [sw nw] [sb nb]; cbn [fst snd]; intros Hb0 Hbn Hw0 Hwn Hn Hn' Herror.
  subst nb nw.
  set (n := Z.of_nat (length (includedOffsets (ImageData.data original)))) in *.
  destruct (psnrOfSums_cases (sb, n)) as [[H0 ->] | [(Hne & Hlt & ->) | (Hne & Hge & ->)]];
    cbn [fst snd] in *.
  - unfold psnrOfSums; cbn [snd]; rewrite H0; cbn; lra.
  - apply (psnrOfSums_le_100 (sw, n)); assumption.
  - assert (HnR : (0 < IZR (n * 3))%R) by (apply IZR_lt; lia).
    assert (Hmse : (IZR sb / IZR (n * 3) <= IZR sw / IZR (n * 3))%R).
    { unfold Rdiv; apply Rmult_le_compat_r;
        [left; apply Rinv_0_lt_compat; exact HnR | apply IZR_le; exact Herror]. }
    unfold psnrOfSums; cbn [fst snd].
    replace (n =? 0) with false by (symmetry; apply Z.eqb_neq; exact Hne).
    destruct (Rlt_dec (IZR sw / IZR (n * 3)) 1e-10) as [H | _]; [lra |].
    apply Rle_max_compat_l, Rmult_le_compat_l; [lra |].
    assert (Hpos : (0 < IZR sb / IZR (n * 3))%R) by lra.
    assert (Hpos' : (0 < IZR sw / IZR (n * 3))%R) by lra.
    apply Math_log10_le; [apply Rdiv_lt_0_compat; [apply pow_lt; lra | exact Hpos'] |].
    unfold Rdiv at 1 3; apply Rmult_le_compat_l; [apply pow_le; lra |].
    apply Rinv_le_contravar; assumption.
Qed.

Lemma psnr_monotone_witness :
  (calculatePSNR (onePixel 10) (onePixel 13)
   <= calculatePSNR (onePixel 10) (onePixel 11))%R.
Proof.
  apply (psnr_monotone (onePixel 10) (onePixel 11) (onePixel 13) eq_refl eq_refl eq_refl);
    vm_compute; discriminate.
Defined.

(** ** Heat map: opacity and the ramp's stops *)

Lemma ToUint8Clamp_between (x : R) (lo hi : Z) :
  0 <= lo -> hi <= 255 -> (IZR lo <= x <= IZR hi)%R ->
  lo <= ToUint8Clamp x <= hi.
Proof.
  intros Hlo Hhi [Hx0 Hx1]; unfold ToUint8Clamp.
  assert (H0 : (0 <= IZR lo)%R) by (apply IZR_le; exact Hlo).
  assert (H255 : (IZR hi <= 255)%R) by (apply IZR_le; exact Hhi).
  rewrite (Rmax_left x 0), (Rmin_left x 255) by lra.
  pose proof (Int_part_bounds x) as [Hf0 Hf1].
  assert (Hfloor_lo : lo <= Int_part x)
    by (apply Z.lt_succ_r, lt_IZR; rewrite succ_IZR; lra).
  assert (Hfloor_hi : Int_part x <= hi) by (apply le_IZR; lra).
  destruct (Rlt_dec (IZR (Int_part x) + / 2) x) as [Hup | Hnot].
  - assert (Int_part x < hi) by (apply lt_IZR; lra); lia.
  - destruct (Rlt_dec x (IZR (Int_part x) + / 2)) as [_ | Htie]; [lia |].
    assert (Int_part x < hi) by (apply lt_IZR; lra).
    destruct (Z.even (Int_part x)); lia.
Qed.

Lemma pixelIntensity_range (o c : list Z) (i : nat) :
  (0 <= pixelIntensity o c i <= 1)%R.
Proof.
  unfold pixelIntensity; split; [| apply Rmin_l].
  apply Rmin_glb; [lra |].
  unfold pixelDiff; rewrite <- !plus_IZR.
  apply Rmult_le_pos; [| lra].
  apply Rmult_le_pos; [apply IZR_le; lia | lra].
Qed.

(** X18. Every pixel the heat map stores is either the transparent pixel
    (reference alpha below 255) or has colour bytes in [0, 255] and an alpha
    between 30 and 225: no pixel of the map is ever fully opaque.  A pixel
    that differs by 255 in each of R, G and B is stored as red with the
    largest alpha, 225. *)
Theorem heatmap_alpha_range
        (original compressed : ImageData.t) (k : nat)
        (Hwfa : wellFormed original = true)
        (Hwfb : wellFormed compressed = true)
        (Hsize : sameSize original compressed = true)
        (Hk : (k < ImageData.width original * ImageData.height original)%nat) :
  exists out,
    updateHeatMap (ImageData.width original) (ImageData.height original)
                  (ImageData.data original) (ImageData.data compressed) = Some out
    /\ (pixelBytes out k = [0; 0; 0; 0]
        \/ exists red green blue alpha,
             pixelBytes out k = [red; green; blue; alpha]
             /\ 0 <= red <= 255 /\ 0 <= green <= 255 /\ 0 <= blue <= 255
             /\ 30 <= alpha <= 225)
    /\ (byteAt (ImageData.data original) (4 * k + 3) = 255 ->
        pixelDiff (ImageData.data original) (ImageData.data compressed) (4 * k) = 255%R ->
        pixelBytes out k = [255; 0; 0; 225]).
Proof.
  destruct (updateHeatMap_pixel original compressed k Hwfa Hk) as (out & Hout & _ & Hpix).
  exists out; split; [exact Hout |].
  rewrite Hpix.
  set (o := ImageData.data original); set (c := ImageData.data compressed).
  pose proof (pixelIntensity_range o c (4 * k)) as Hint.
  split.
  - destruct (Z.lt_ge_cases (byteAt o (4 * k + 3)) 255) as [Hclear | Hopaque].
    + left; apply storedPixel_transparent; exact Hclear.
    + right.
      destruct (getHeatMapColor_total (pixelIntensity o c (4 * k)))
        as (col & Hcol & Hr & Hg & Hb).
      exists (r col), (g col), (b col),
             (ToUint8Clamp (Rmax 30 (pixelIntensity o c (4 * k) * 225))).
      split; [apply storedPixel_opaque; [lia | exact Hcol] |].
      repeat split; try lia.
      * apply (ToUint8Clamp_between _ 30 225); try lia.
        split; [apply Rmax_l | apply Rmax_lub; lra].
      * apply (ToUint8Clamp_between _ 30 225); try lia.
        split; [apply Rmax_l | apply Rmax_lub; lra].
  - intros Halpha Hdiff.
    assert (Hone : pixelIntensity o c (4 * k) = 1%R).
    { unfold pixelIntensity; fold o c in Hdiff; rewrite Hdiff.
      replace (255 / 255)%R with 1%R by lra; apply Rmin_left; lra. }
    rewrite (storedPixel_opaque o c (4 * k) {| r := 255; g := 0; b := 0 |});
      [| fold o in Halpha; lia | rewrite Hone; apply getHeatMapColor_red; lra].
    rewrite Hone, Rmult_1_l, (Rmax_right 30 225) by lra.
    rewrite (ToUint8Clamp_IZR 225) by lia; reflexivity.
Qed.

Lemma heatmap_alpha_range_witness :
  exists out,
    updateHeatMap 8 8 (ImageData.data (blackImage 8 8)) (ImageData.data (whiteImage 8 8))
    = Some out
    /\ pixelBytes out 5 = [255; 0; 0; 225].
Proof.
  destruct (heatmap_alpha_range (blackImage 8 8) (whiteImage 8 8) 5
              eq_refl eq_refl eq_refl) as (out & Hout & _ & Hmax).
  - simpl; lia.
  - exists out; split; [exact Hout |].
    apply Hmax; [reflexivity |].
    unfold pixelDiff.
    change (byteAt (ImageData.data (blackImage 8 8)) (4 * 5)) with 0.
    change (byteAt (ImageData.data (blackImage 8 8)) (4 * 5 + 1)) with 0.
    change (byteAt (ImageData.data (blackImage 8 8)) (4 * 5 + 2)) with 0.
    change (byteAt (ImageData.data (whiteImage 8 8)) (4 * 5)) with 255.
    change (byteAt (ImageData.data (whiteImage 8 8)) (4 * 5 + 1)) with 255.
    change (byteAt (ImageData.data (whiteImage 8 8)) (4 * 5 + 2)) with 255.
    change (Z.abs (0 - 255)) with 255; lra.
Defined.

(** X19. The ramp passes through its five stops: at intensity [k / 4], for
    [k] from 0 to 4, [getHeatMapColor] returns the stop number [k] of blue,
    cyan, green, yellow, red, unchanged. *)
Theorem heatmap_ramp_stops (k : Z) (Hk : 0 <= k <= 4) :
  getHeatMapColor (IZR k / 4) = colorAt k
  /\ colorAt k = nth_error colors (Z.to_nat k).
Proof.
  split; [| unfold colorAt;
            replace (k <? 0) with false by (symmetry; apply Z.ltb_ge; lia);
            reflexivity].
  destruct Hk as [Hk0 Hk4].
  assert (HkR : (0 <= IZR k <= 4)%R) by (split; apply IZR_le; assumption).
  unfold getHeatMapColor; rewrite ramp_last_index.
  rewrite (Rmin_right 1 (IZR k / 4)), (Rmax_right 0 (IZR k / 4)) by lra.
  replace (IZR k / 4 * 4)%R with (IZR k) by lra.
  unfold Math_floor; rewrite Int_part_IZR.
  destruct (colorAt_some k (conj Hk0 Hk4)) as (ci & -> & _).
  assert (Hj : 0 <= Z.min (k + 1) (Z.of_nat (length colors) - 1) <= 4)
    by (change (Z.of_nat (length colors) - 1) with 4; lia).
  destruct (colorAt_some _ Hj) as (cj & -> & _).
  destruct ci as [ri gi bi]; cbn [r g b].
  f_equal; f_equal.
  - replace (IZR ri * (1 - (IZR k - IZR k)) + IZR (r cj) * (IZR k - IZR k))%R
      with (IZR ri) by ring.
    apply Math_round_IZR.
  - replace (IZR gi * (1 - (IZR k - IZR k)) + IZR (g cj) * (IZR k - IZR k))%R
      with (IZR gi) by ring.
    apply Math_round_IZR.
  - replace (IZR bi * (1 - (IZR k - IZR k)) + IZR (b cj) * (IZR k - IZR k))%R
      with (IZR bi) by ring.
    apply Math_round_IZR.
Qed.

Lemma heatmap_ramp_stops_witness :
  getHeatMapColor (IZR 2 / 4) = Some {| r := 0; g := 255; b := 0 |}.
Proof.
  destruct (heatmap_ramp_stops 2) as [H _]; [lia |].
  rewrite H; reflexivity.
Defined.
